(** * Ten software Delta-Sigma modulators with colour envelopes (main.c)

    A shallow embedding of the MSP430 firmware: the global channel arrays
    [max], [req], [sum], the packed output word [outBits], the four
    envelope functions with their static phase counters, the modulator
    loop [calc_output_bits] and the body of the infinite loop of [main].

    Machine integers are modelled as [Z] with the wrap-around written out:
    on the MSP430 an [int] has 16 bits and a [char] has 8. *)

From Stdlib Require Import ZArith Lia Bool List.
From stdpp Require Import base list.
Import ListNotations.

Local Open Scope Z_scope.

(** ** Machine arithmetic *)

(** [unsigned int]: 16 bits. *)
Definition uint16 (z : Z) : Z := z mod 65536.

(** [unsigned char]: 8 bits. *)
Definition uint8 (z : Z) : Z := z mod 256.

(** [int]: 16 bits, two's complement. *)
Definition sint16 (z : Z) : Z := (z + 32768) mod 65536 - 32768.

(** ** Compile-time configuration (the [#define] block) *)

Record config := {
  P1_COMM_ANOD : Z;
  P2_COMM_ANOD : Z;
  LOOP_SPEED   : Z;
  MAX_CH_0_2   : Z;
  MAX_CH_3_5   : Z;
  MAX_CH_6_7   : Z;
  MAX_CH_8_9   : Z;
  STEPS_CH_0_2 : Z;
  STEPS_CH_3_5 : Z;
  STEPS_CH_6_7 : Z;
  STEPS_CH_8_9 : Z
}.

(** Number of modulator channels. *)
Definition N_CH : nat := 10.

(** The values of the repository. *)
Definition shipped : config := {|
  P1_COMM_ANOD := 63;
  P2_COMM_ANOD := 0;
  LOOP_SPEED   := 6;
  MAX_CH_0_2   := 200;
  MAX_CH_3_5   := 200;
  MAX_CH_6_7   := 100;
  MAX_CH_8_9   := 150;
  STEPS_CH_0_2 := 100;
  STEPS_CH_3_5 := 100;
  STEPS_CH_6_7 := 50;
  STEPS_CH_8_9 := 150
|}.

(** The increment macros; [/] on C integers truncates.  The macros are
    constant expressions: like the products [k * STEPS] below they are taken
    exact, which they are whenever they fit an [int] (600 at most for the
    shipped values). *)
Definition INC_CH_0_2 (c : config) : Z := Z.quot (MAX_CH_0_2 c) (STEPS_CH_0_2 c).
Definition INC_CH_3_5 (c : config) : Z := Z.quot (MAX_CH_3_5 c) (STEPS_CH_3_5 c).
Definition INC_CH_6_7 (c : config) : Z := Z.quot (MAX_CH_6_7 c) (STEPS_CH_6_7 c).
Definition INC_CH_8_9 (c : config) : Z := Z.quot (MAX_CH_8_9 c) (STEPS_CH_8_9 c).

(** ** Program state: the globals and the function-local statics *)

Record state := {
  max       : list Z;   (* unsigned int max[N_CH]  *)
  req       : list Z;   (* unsigned char req[N_CH] *)
  sum       : list Z;   (* unsigned int sum[N_CH]  *)
  outBits   : Z;        (* unsigned int outBits    *)
  stCnt_0_2 : Z;        (* static int stCnt of calc_CH_0_TO_2 *)
  stCnt_3_5 : Z;        (* static int stCnt of calc_CH_3_TO_5 *)
  stCnt_6_7 : Z;        (* static int stCnt of calc_CH_6_TO_7 *)
  stCnt_8_9 : Z         (* static int stCnt of calc_CH_8_TO_9 *)
}.

(** Array read [a[n]]; the arrays have [N_CH] cells and every index of the
    program is below [N_CH]. *)
Definition rd (a : list Z) (n : nat) : Z := default 0 (a !! n).

Definition set_max (s : state) (v : list Z) : state :=
  {| max := v; req := req s; sum := sum s; outBits := outBits s;
     stCnt_0_2 := stCnt_0_2 s; stCnt_3_5 := stCnt_3_5 s;
     stCnt_6_7 := stCnt_6_7 s; stCnt_8_9 := stCnt_8_9 s |}.

Definition set_req (s : state) (v : list Z) : state :=
  {| max := max s; req := v; sum := sum s; outBits := outBits s;
     stCnt_0_2 := stCnt_0_2 s; stCnt_3_5 := stCnt_3_5 s;
     stCnt_6_7 := stCnt_6_7 s; stCnt_8_9 := stCnt_8_9 s |}.

Definition set_sum (s : state) (v : list Z) : state :=
  {| max := max s; req := req s; sum := v; outBits := outBits s;
     stCnt_0_2 := stCnt_0_2 s; stCnt_3_5 := stCnt_3_5 s;
     stCnt_6_7 := stCnt_6_7 s; stCnt_8_9 := stCnt_8_9 s |}.

Definition set_outBits (s : state) (v : Z) : state :=
  {| max := max s; req := req s; sum := sum s; outBits := v;
     stCnt_0_2 := stCnt_0_2 s; stCnt_3_5 := stCnt_3_5 s;
     stCnt_6_7 := stCnt_6_7 s; stCnt_8_9 := stCnt_8_9 s |}.

Definition set_stCnt_0_2 (s : state) (v : Z) : state :=
  {| max := max s; req := req s; sum := sum s; outBits := outBits s;
     stCnt_0_2 := v; stCnt_3_5 := stCnt_3_5 s;
     stCnt_6_7 := stCnt_6_7 s; stCnt_8_9 := stCnt_8_9 s |}.

Definition set_stCnt_3_5 (s : state) (v : Z) : state :=
  {| max := max s; req := req s; sum := sum s; outBits := outBits s;
     stCnt_0_2 := stCnt_0_2 s; stCnt_3_5 := v;
     stCnt_6_7 := stCnt_6_7 s; stCnt_8_9 := stCnt_8_9 s |}.

Definition set_stCnt_6_7 (s : state) (v : Z) : state :=
  {| max := max s; req := req s; sum := sum s; outBits := outBits s;
     stCnt_0_2 := stCnt_0_2 s; stCnt_3_5 := stCnt_3_5 s;
     stCnt_6_7 := v; stCnt_8_9 := stCnt_8_9 s |}.

Definition set_stCnt_8_9 (s : state) (v : Z) : state :=
  {| max := max s; req := req s; sum := sum s; outBits := outBits s;
     stCnt_0_2 := stCnt_0_2 s; stCnt_3_5 := stCnt_3_5 s;
     stCnt_6_7 := stCnt_6_7 s; stCnt_8_9 := v |}.

(** [req[n] += d] and [req[n] -= d] on an [unsigned char] cell. *)
Definition req_add (n : nat) (d : Z) (s : state) : state :=
  set_req s (<[n := uint8 (rd (req s) n + d)]> (req s)).

Definition req_sub (n : nat) (d : Z) (s : state) : state :=
  set_req s (<[n := uint8 (rd (req s) n - d)]> (req s)).

(** The state at reset: zeroed globals and the initialisers of the statics. *)
Definition boot (c : config) : state := {|
  max := replicate N_CH 0;
  req := replicate N_CH 0;
  sum := replicate N_CH 0;
  outBits := 0;
  stCnt_0_2 := 0;
  stCnt_3_5 := sint16 (3 * STEPS_CH_3_5 c);
  stCnt_6_7 := 0;
  stCnt_8_9 := sint16 (2 * STEPS_CH_8_9 c)
|}.

(** ** init_all_CH_arrays *)

Definition init_all_CH_arrays (c : config) (s : state) : state :=
  let m := max s in
  let m := <[0%nat := uint16 (MAX_CH_0_2 c)]> m in
  let m := <[1%nat := uint16 (MAX_CH_0_2 c)]> m in
  let m := <[2%nat := uint16 (MAX_CH_0_2 c)]> m in
  let m := <[3%nat := uint16 (MAX_CH_3_5 c)]> m in
  let m := <[4%nat := uint16 (MAX_CH_3_5 c)]> m in
  let m := <[5%nat := uint16 (MAX_CH_3_5 c)]> m in
  let m := <[6%nat := uint16 (MAX_CH_6_7 c)]> m in
  let m := <[7%nat := uint16 (MAX_CH_6_7 c)]> m in
  let m := <[8%nat := uint16 (MAX_CH_8_9 c)]> m in
  let m := <[9%nat := uint16 (MAX_CH_8_9 c)]> m in
  let r := req s in
  let r := <[0%nat := uint8 (MAX_CH_0_2 c)]> r in
  let r := <[1%nat := 0]> r in
  let r := <[2%nat := 0]> r in
  let r := <[3%nat := 0]> r in
  let r := <[4%nat := uint8 (MAX_CH_3_5 c)]> r in
  let r := <[5%nat := uint8 (MAX_CH_3_5 c)]> r in
  let r := <[6%nat := 0]> r in
  let r := <[7%nat := 0]> r in
  let r := <[8%nat := uint8 (MAX_CH_8_9 c)]> r in
  let r := <[9%nat := uint8 (MAX_CH_8_9 c)]> r in
  set_req (set_max s m) r.

(** ** The envelope functions

    Each is a chain of independent [if] statements on the static counter,
    followed by the counter's increment modulo the cycle length. *)

Definition in_seg (p lo hi : Z) : bool := (lo <=? p) && (p <? hi).

Definition next_stCnt (p len : Z) : Z :=
  let p1 := sint16 (p + 1) in if len <=? p1 then 0 else p1.

Definition calc_CH_0_TO_2 (c : config) (s : state) : state :=
  let p := stCnt_0_2 s in
  let st := STEPS_CH_0_2 c in
  let s := if in_seg p (0 * st) (1 * st) then req_add 1 (INC_CH_0_2 c) s else s in
  let s := if in_seg p (1 * st) (2 * st) then req_sub 0 (INC_CH_0_2 c) s else s in
  let s := if in_seg p (2 * st) (3 * st) then req_add 2 (INC_CH_0_2 c) s else s in
  let s := if in_seg p (3 * st) (4 * st) then req_sub 1 (INC_CH_0_2 c) s else s in
  let s := if in_seg p (4 * st) (5 * st) then req_add 0 (INC_CH_0_2 c) s else s in
  let s := if in_seg p (5 * st) (6 * st) then req_sub 2 (INC_CH_0_2 c) s else s in
  set_stCnt_0_2 s (next_stCnt p (6 * st)).

Definition calc_CH_3_TO_5 (c : config) (s : state) : state :=
  let p := stCnt_3_5 s in
  let st := STEPS_CH_3_5 c in
  let s := if in_seg p (0 * st) (1 * st) then req_add 4 (INC_CH_3_5 c) s else s in
  let s := if in_seg p (1 * st) (2 * st) then req_sub 3 (INC_CH_3_5 c) s else s in
  let s := if in_seg p (2 * st) (3 * st) then req_add 5 (INC_CH_3_5 c) s else s in
  let s := if in_seg p (3 * st) (4 * st) then req_sub 4 (INC_CH_3_5 c) s else s in
  let s := if in_seg p (4 * st) (5 * st) then req_add 3 (INC_CH_3_5 c) s else s in
  let s := if in_seg p (5 * st) (6 * st) then req_sub 5 (INC_CH_3_5 c) s else s in
  set_stCnt_3_5 s (next_stCnt p (6 * st)).

Definition calc_CH_6_TO_7 (c : config) (s : state) : state :=
  let p := stCnt_6_7 s in
  let st := STEPS_CH_6_7 c in
  let s := if in_seg p (0 * st) (1 * st) then req_add 7 (INC_CH_6_7 c) s else s in
  let s := if in_seg p (1 * st) (2 * st) then req_add 6 (INC_CH_6_7 c) s else s in
  let s := if in_seg p (2 * st) (3 * st) then req_sub 7 (INC_CH_6_7 c) s else s in
  let s := if in_seg p (3 * st) (4 * st) then req_sub 6 (INC_CH_6_7 c) s else s in
  set_stCnt_6_7 s (next_stCnt p (4 * st)).

Definition calc_CH_8_TO_9 (c : config) (s : state) : state :=
  let p := stCnt_8_9 s in
  let st := STEPS_CH_8_9 c in
  let s := if in_seg p (0 * st) (1 * st) then req_add 9 (INC_CH_8_9 c) s else s in
  let s := if in_seg p (1 * st) (2 * st) then req_add 8 (INC_CH_8_9 c) s else s in
  let s := if in_seg p (2 * st) (3 * st) then req_sub 9 (INC_CH_8_9 c) s else s in
  let s := if in_seg p (3 * st) (4 * st) then req_sub 8 (INC_CH_8_9 c) s else s in
  set_stCnt_8_9 s (next_stCnt p (4 * st)).

(** ** The envelope functions, one adjustment at a time

    The ramp a phase selects, read off the chain of [if]s as if it were a
    chain of [else if]s; the theorems show that the code does the same. *)

Inductive adjustment :=
| Keep
| Up (n : nat)
| Down (n : nat).

Definition apply_adj (inc : Z) (a : adjustment) (s : state) : state :=
  match a with
  | Keep => s
  | Up n => req_add n inc s
  | Down n => req_sub n inc s
  end.

(** The same on the array [req] alone. *)
Definition adj_req (inc : Z) (a : adjustment) (r : list Z) : list Z :=
  match a with
  | Keep => r
  | Up n => <[n := uint8 (rd r n + inc)]> r
  | Down n => <[n := uint8 (rd r n - inc)]> r
  end.

(** Channel touched by an adjustment, if any. *)
Definition adj_channel (a : adjustment) : option nat :=
  match a with
  | Keep => None
  | Up n | Down n => Some n
  end.

Definition segment_0_2 (c : config) (p : Z) : adjustment :=
  let st := STEPS_CH_0_2 c in
  if in_seg p (0 * st) (1 * st) then Up 1
  else if in_seg p (1 * st) (2 * st) then Down 0
  else if in_seg p (2 * st) (3 * st) then Up 2
  else if in_seg p (3 * st) (4 * st) then Down 1
  else if in_seg p (4 * st) (5 * st) then Up 0
  else if in_seg p (5 * st) (6 * st) then Down 2
  else Keep.

Definition segment_3_5 (c : config) (p : Z) : adjustment :=
  let st := STEPS_CH_3_5 c in
  if in_seg p (0 * st) (1 * st) then Up 4
  else if in_seg p (1 * st) (2 * st) then Down 3
  else if in_seg p (2 * st) (3 * st) then Up 5
  else if in_seg p (3 * st) (4 * st) then Down 4
  else if in_seg p (4 * st) (5 * st) then Up 3
  else if in_seg p (5 * st) (6 * st) then Down 5
  else Keep.

Definition segment_6_7 (c : config) (p : Z) : adjustment :=
  let st := STEPS_CH_6_7 c in
  if in_seg p (0 * st) (1 * st) then Up 7
  else if in_seg p (1 * st) (2 * st) then Up 6
  else if in_seg p (2 * st) (3 * st) then Down 7
  else if in_seg p (3 * st) (4 * st) then Down 6
  else Keep.

Definition segment_8_9 (c : config) (p : Z) : adjustment :=
  let st := STEPS_CH_8_9 c in
  if in_seg p (0 * st) (1 * st) then Up 9
  else if in_seg p (1 * st) (2 * st) then Up 8
  else if in_seg p (2 * st) (3 * st) then Down 9
  else if in_seg p (3 * st) (4 * st) then Down 8
  else Keep.

(** ** calc_output_bits *)

(** The "synthetic division" of one modulator: [sum += req], then either
    the bit is 1, or [sum -= max] and the bit is 0.  Returns the new
    integrator value and the bit. *)
Definition modulate (mx rq sm : Z) : Z * bool :=
  let sm1 := uint16 (sm + rq) in
  if sm1 <? mx then (sm1, true) else (uint16 (sm1 - mx), false).

(** One iteration of the [for] loop, for channel [n]. *)
Definition loop_body (n : nat) (s : state) : state :=
  let o := uint16 (Z.shiftl (outBits s) 1) in
  let '(sm, b) := modulate (rd (max s) n) (rd (req s) n) (rd (sum s) n) in
  set_outBits (set_sum s (<[n := sm]> (sum s)))
              (if b then uint16 (o + 1) else o).

(** [for (n = k - 1; n >= 0; --n) body]. *)
Fixpoint loop_from (k : nat) (s : state) : state :=
  match k with
  | O => s
  | S n => loop_from n (loop_body n s)
  end.

Definition calc_output_bits (s : state) : state := loop_from N_CH s.

(** Output bit of channel [n] in the packed word. *)
Definition out_bit (n : nat) (s : state) : bool := Z.testbit (outBits s) (Z.of_nat n).

(** ** The watchdog interrupt: the two port registers written from [outBits] *)

Definition Watchdog_Timer (c : config) (s : state) : Z * Z :=
  (uint8 (Z.lxor (outBits s) (P1_COMM_ANOD c)),
   uint8 (Z.lxor (Z.shiftr (outBits s) 2) (P2_COMM_ANOD c))).

(** ** Streams of output bits *)

(** One modulator clocked [k] times with [req] held constant: the final
    integrator value and the emitted bits, oldest first. *)
Fixpoint ds_run (mx rq : Z) (k : nat) (sm : Z) : Z * list bool :=
  match k with
  | O => (sm, [])
  | S k' =>
      let '(sm1, b) := modulate mx rq sm in
      let '(sm2, bs) := ds_run mx rq k' sm1 in
      (sm2, b :: bs)
  end.

(** Number of bits equal to [v]. *)
Fixpoint count_bits (v : bool) (bs : list bool) : Z :=
  match bs with
  | [] => 0
  | b :: t => (if Bool.eqb b v then 1 else 0) + count_bits v t
  end.

(** [k] consecutive calls of [calc_output_bits] and the bit of channel [n]
    after each call, oldest first. *)
Fixpoint out_stream (n : nat) (k : nat) (s : state) : state * list bool :=
  match k with
  | O => (s, [])
  | S k' =>
      let s1 := calc_output_bits s in
      let '(s2, bs) := out_stream n k' s1 in
      (s2, out_bit n s1 :: bs)
  end.

(** The modulator of channel [n], on the state's own cells. *)
Definition channel_step (n : nat) (s : state) : Z * bool :=
  modulate (rd (max s) n) (rd (req s) n) (rd (sum s) n).

(** The loop of [calc_output_bits] with the channels visited in an
    arbitrary order: the same body, run once per entry of [order].  The
    program itself visits [N_CH - 1], ..., [0]. *)
Definition calc_output_bits_in (order : list nat) (s : state) : state :=
  foldl (fun s n => loop_body n s) s order.

(** ** The infinite loop of [main] *)

(** The functions [main] calls from its loop. *)
Inductive call :=
| Calc_CH_0_TO_2
| Calc_CH_3_TO_5
| Calc_CH_6_TO_7
| Calc_CH_8_TO_9
| Calc_output_bits.

Definition exec (c : config) (f : call) (s : state) : state :=
  match f with
  | Calc_CH_0_TO_2 => calc_CH_0_TO_2 c s
  | Calc_CH_3_TO_5 => calc_CH_3_TO_5 c s
  | Calc_CH_6_TO_7 => calc_CH_6_TO_7 c s
  | Calc_CH_8_TO_9 => calc_CH_8_TO_9 c s
  | Calc_output_bits => calc_output_bits s
  end.

(** Calls made one after the other. *)
Definition run (c : config) (fs : list call) (s : state) : state :=
  foldl (fun s f => exec c f s) s fs.

(** The test [++intCnt & (1 << LOOP_SPEED)] on the incremented counter. *)
Definition envelope_due (c : config) (cnt1 : Z) : bool :=
  negb (Z.land cnt1 (Z.shiftl 1 (LOOP_SPEED c)) =? 0).

(** One pass through the loop body after a watchdog interrupt, for the
    counter value [cnt]: the new counter and the calls made, in program
    order.  The interrupt itself only copies [outBits] to the ports
    ([Watchdog_Timer]) and wakes the loop. *)
Definition loop_calls (c : config) (cnt : Z) : Z * list call :=
  let cnt1 := sint16 (cnt + 1) in
  if envelope_due c cnt1
  then (0, [Calc_CH_0_TO_2; Calc_CH_3_TO_5; Calc_CH_6_TO_7; Calc_CH_8_TO_9;
            Calc_output_bits])
  else (cnt1, [Calc_output_bits]).

(** State of [main]: its local counter and the globals. *)
Record mstate := { intCnt : Z; globals : state }.

Definition main_loop_body (c : config) (m : mstate) : mstate :=
  let '(cnt, fs) := loop_calls c (intCnt m) in
  {| intCnt := cnt; globals := run c fs (globals m) |}.

(** The globals when the loop is entered. *)
Definition main_init (c : config) : state := init_all_CH_arrays c (boot c).

(** What start-up can end in.  [main] has no path that leaves before the
    loop: it always ends in [Running]. *)
Inductive startup :=
| Refused
| Running (s : state).

Definition main_start (c : config) : startup := Running (main_init c).

(** For [k] passes starting from counter [cnt]: did the pass run the
    envelopes?  Oldest first. *)
Fixpoint envelope_trace (c : config) (k : nat) (cnt : Z) : list bool :=
  match k with
  | O => []
  | S k' =>
      envelope_due c (sint16 (cnt + 1))
        :: envelope_trace c k' (fst (loop_calls c cnt))
  end.

(** The counter after [k] passes. *)
Fixpoint intCnt_after (c : config) (k : nat) (cnt : Z) : Z :=
  match k with
  | O => cnt
  | S k' => intCnt_after c k' (fst (loop_calls c cnt))
  end.

(** ** Invariants of the shipped configuration *)

(** Levels (red, green, blue) of a three-colour group at phase [p]. *)
Definition rgb_env (mx st inc p : Z) : list Z :=
  if p <? 1 * st then [mx; inc * p; 0]
  else if p <? 2 * st then [mx - inc * (p - 1 * st); mx; 0]
  else if p <? 3 * st then [0; mx; inc * (p - 2 * st)]
  else if p <? 4 * st then [0; mx - inc * (p - 3 * st); mx]
  else if p <? 5 * st then [inc * (p - 4 * st); 0; mx]
  else [mx; 0; mx - inc * (p - 5 * st)].

(** Levels (red, green) of a two-colour group at phase [p]. *)
Definition rg_env (mx st inc p : Z) : list Z :=
  if p <? 1 * st then [0; inc * p]
  else if p <? 2 * st then [inc * (p - 1 * st); mx]
  else if p <? 3 * st then [mx; mx - inc * (p - 2 * st)]
  else [mx - inc * (p - 3 * st); 0].

(** The envelope part: every counter is inside its cycle and the levels
    are the ones of that phase. *)
Definition env_inv (s : state) : Prop :=
  max s = [200; 200; 200; 200; 200; 200; 100; 100; 150; 150] /\
  (0 <= stCnt_0_2 s < 600 /\ 0 <= stCnt_3_5 s < 600 /\
   0 <= stCnt_6_7 s < 200 /\ 0 <= stCnt_8_9 s < 600) /\
  req s = rgb_env 200 100 2 (stCnt_0_2 s) ++ rgb_env 200 100 2 (stCnt_3_5 s)
          ++ rg_env 100 50 2 (stCnt_6_7 s) ++ rg_env 150 150 1 (stCnt_8_9 s).

(** The modulator part: every integrator is below its channel's maximum. *)
Definition sum_inv (s : state) : Prop :=
  length (sum s) = N_CH /\
  forall n, (n < N_CH)%nat -> 0 <= rd (sum s) n < rd (max s) n.

Definition sys_inv (s : state) : Prop := env_inv s /\ sum_inv s.

(** The documented invariants of one channel: a positive resolution that
    leaves one spare bit in the 16-bit integrator, a requested level within
    the resolution, an integrator below the resolution. *)
Definition chan_inv (s : state) (n : nat) : Prop :=
  1 <= rd (max s) n <= 32767 /\
  0 <= rd (req s) n <= rd (max s) n /\
  0 <= rd (sum s) n < rd (max s) n.

Definition documented_inv (s : state) : Prop :=
  length (sum s) = N_CH /\ forall n, (n < N_CH)%nat -> chan_inv s n.

(** The configurations the specification calls valid. *)
Definition config_valid (c : config) : Prop :=
  (0 < MAX_CH_0_2 c /\ 0 < MAX_CH_3_5 c /\ 0 < MAX_CH_6_7 c /\ 0 < MAX_CH_8_9 c) /\
  (0 < STEPS_CH_0_2 c /\ 0 < STEPS_CH_3_5 c /\
   0 < STEPS_CH_6_7 c /\ 0 < STEPS_CH_8_9 c) /\
  (Z.rem (MAX_CH_0_2 c) (STEPS_CH_0_2 c) = 0 /\
   Z.rem (MAX_CH_3_5 c) (STEPS_CH_3_5 c) = 0 /\
   Z.rem (MAX_CH_6_7 c) (STEPS_CH_6_7 c) = 0 /\
   Z.rem (MAX_CH_8_9 c) (STEPS_CH_8_9 c) = 0).

(** ** Particular states and configurations *)

(** A state with ten channels of resolution 100 and requested level 25. *)
Definition quarter_state : state := {|
  max := replicate N_CH 100;
  req := replicate N_CH 25;
  sum := replicate N_CH 0;
  outBits := 0;
  stCnt_0_2 := 0; stCnt_3_5 := 0; stCnt_6_7 := 0; stCnt_8_9 := 0
|}.

(** A configuration with a channel group of resolution zero, and one whose
    step count does not divide the resolution. *)
Definition zero_resolution_cfg : config := {|
  P1_COMM_ANOD := 63; P2_COMM_ANOD := 0; LOOP_SPEED := 6;
  MAX_CH_0_2 := 200; MAX_CH_3_5 := 200; MAX_CH_6_7 := 0; MAX_CH_8_9 := 150;
  STEPS_CH_0_2 := 100; STEPS_CH_3_5 := 100; STEPS_CH_6_7 := 50;
  STEPS_CH_8_9 := 150
|}.

Definition uneven_steps_cfg : config := {|
  P1_COMM_ANOD := 63; P2_COMM_ANOD := 0; LOOP_SPEED := 6;
  MAX_CH_0_2 := 200; MAX_CH_3_5 := 200; MAX_CH_6_7 := 100; MAX_CH_8_9 := 150;
  STEPS_CH_0_2 := 100; STEPS_CH_3_5 := 100; STEPS_CH_6_7 := 50;
  STEPS_CH_8_9 := 100
|}.

(** Passes of the loop between two runs of the envelopes. *)
Definition envelope_period (c : config) : Z := 2 ^ LOOP_SPEED c.

(** ** Who owns what *)

(** Channels whose level a call may write. *)
Definition group_of (f : call) : list nat :=
  match f with
  | Calc_CH_0_TO_2 => [0; 1; 2]%nat
  | Calc_CH_3_TO_5 => [3; 4; 5]%nat
  | Calc_CH_6_TO_7 => [6; 7]%nat
  | Calc_CH_8_TO_9 => [8; 9]%nat
  | Calc_output_bits => []
  end.

(** The static counter inside a call ([calc_output_bits] has none). *)
Definition stCnt_of (f : call) (s : state) : Z :=
  match f with
  | Calc_CH_0_TO_2 => stCnt_0_2 s
  | Calc_CH_3_TO_5 => stCnt_3_5 s
  | Calc_CH_6_TO_7 => stCnt_6_7 s
  | Calc_CH_8_TO_9 => stCnt_8_9 s
  | Calc_output_bits => 0
  end.

(** The four envelope calls of one pass, in the order of [main]. *)
Definition env_round : list call :=
  [Calc_CH_0_TO_2; Calc_CH_3_TO_5; Calc_CH_6_TO_7; Calc_CH_8_TO_9].

(** Two states with the same envelope part: resolutions, levels and the
    four phase counters (the integrators and the output word may differ). *)
Definition env_eq (s s' : state) : Prop :=
  max s = max s' /\ req s = req s' /\
  stCnt_0_2 s = stCnt_0_2 s' /\ stCnt_3_5 s = stCnt_3_5 s' /\
  stCnt_6_7 s = stCnt_6_7 s' /\ stCnt_8_9 s = stCnt_8_9 s'.

(** * Properties of the modulator *)

Section Modulator.

Lemma uint16_small z : 0 <= z < 65536 -> uint16 z = z.
Proof. intros H. unfold uint16. apply Z.mod_small. exact H. Qed.

Lemma uint8_small z : 0 <= z < 256 -> uint8 z = z.
Proof. intros H. unfold uint8. apply Z.mod_small. exact H. Qed.

(** Without wrap-around the modulator is the exact division step. *)
Lemma modulate_exact mx rq sm :
  0 <= sm -> 0 <= rq -> sm + rq < 65536 -> 0 <= mx ->
  modulate mx rq sm =
    if sm + rq <? mx then (sm + rq, true) else (sm + rq - mx, false).
Proof.
  intros Hs Hr Hw Hm. unfold modulate.
  rewrite (uint16_small (sm + rq)) by lia.
  destruct (Z.ltb_spec (sm + rq) mx) as [Hlt | Hge]; [reflexivity|].
  rewrite uint16_small by lia. reflexivity.
Qed.

Lemma count_bits_app v (a b : list bool) :
  count_bits v (a ++ b) = count_bits v a + count_bits v b.
Proof.
  induction a as [|x a IH]; simpl; [reflexivity|]. rewrite IH. lia.
Qed.

Lemma count_bits_total (bs : list bool) :
  count_bits true bs + count_bits false bs = Z.of_nat (length bs).
Proof.
  induction bs as [|b bs IH]; [reflexivity|].
  cbn [count_bits length]. destruct b; cbn [Bool.eqb]; lia.
Qed.

Lemma ds_run_length mx rq k sm : length (snd (ds_run mx rq k sm)) = k.
Proof.
  revert sm. induction k as [|k IH]; intros sm; [reflexivity|].
  cbn [ds_run]. destruct (modulate mx rq sm) as [sm1 b].
  specialize (IH sm1). destruct (ds_run mx rq k sm1) as [sm2 bs].
  simpl in *. congruence.
Qed.

(** Splitting a run: the first [j] clocks, then the next [k]. *)
Lemma ds_run_app mx rq j k sm :
  ds_run mx rq (j + k) sm =
    (fst (ds_run mx rq k (fst (ds_run mx rq j sm))),
     snd (ds_run mx rq j sm) ++ snd (ds_run mx rq k (fst (ds_run mx rq j sm)))).
Proof.
  revert sm. induction j as [|j IH]; intros sm.
  - simpl. destruct (ds_run mx rq k sm); reflexivity.
  - cbn [Nat.add ds_run]. destruct (modulate mx rq sm) as [sm1 b].
    rewrite IH. destruct (ds_run mx rq j sm1) as [sm2 bs]. reflexivity.
Qed.

(** The conservation law of synthetic division: what was added to the
    integrator is what is left in it plus one [mx] per 0 bit. *)
Lemma ds_run_balance mx rq k sm :
  0 <= rq <= mx -> 0 <= sm < mx -> mx + rq <= 65536 ->
  0 <= fst (ds_run mx rq k sm) < mx /\
  sm + Z.of_nat k * rq =
    fst (ds_run mx rq k sm) + mx * count_bits false (snd (ds_run mx rq k sm)).
Proof.
  intros Hr. revert sm. induction k as [|k IH]; intros sm Hs Hw.
  - simpl. lia.
  - cbn [ds_run]. rewrite modulate_exact by lia.
    destruct (Z.ltb_spec (sm + rq) mx) as [Hlt | Hge].
    + destruct (IH (sm + rq)) as [Hb He]; [lia | lia |].
      destruct (ds_run mx rq k (sm + rq)) as [sm2 bs].
      cbn [fst snd count_bits Bool.eqb] in *. lia.
    + destruct (IH (sm + rq - mx)) as [Hb He]; [lia | lia |].
      destruct (ds_run mx rq k (sm + rq - mx)) as [sm2 bs].
      cbn [fst snd count_bits Bool.eqb] in *. lia.
Qed.

(** Over [mx] clocks the integrator comes back to where it was and
    exactly [rq] bits are 0. *)
Lemma ds_run_period mx rq sm :
  0 <= rq <= mx -> 0 <= sm < mx -> mx + rq <= 65536 ->
  fst (ds_run mx rq (Z.to_nat mx) sm) = sm /\
  count_bits false (snd (ds_run mx rq (Z.to_nat mx) sm)) = rq /\
  count_bits true (snd (ds_run mx rq (Z.to_nat mx) sm)) = mx - rq.
Proof.
  intros Hr Hs Hw.
  destruct (ds_run_balance mx rq (Z.to_nat mx) sm Hr Hs Hw) as [Hb He].
  pose proof (count_bits_total (snd (ds_run mx rq (Z.to_nat mx) sm))) as Ht.
  rewrite ds_run_length in Ht. rewrite Z2Nat.id in He, Ht by lia.
  set (a := fst (ds_run mx rq (Z.to_nat mx) sm)) in *.
  set (z := count_bits false (snd (ds_run mx rq (Z.to_nat mx) sm))) in *.
  assert (Hz : z = rq) by nia.
  repeat split; nia.
Qed.

End Modulator.

(** * The loop of calc_output_bits, channel by channel *)

Section OutputLoop.

Lemma rd_insert_eq (l : list Z) n v :
  (n < length l)%nat -> rd (<[n := v]> l) n = v.
Proof. intros H. unfold rd. rewrite list_lookup_insert_eq by exact H. reflexivity. Qed.

Lemma rd_insert_ne (l : list Z) m n v :
  m <> n -> rd (<[m := v]> l) n = rd l n.
Proof. intros H. unfold rd. rewrite list_lookup_insert_ne by exact H. reflexivity. Qed.

(** What one pass of the body leaves alone. *)
Lemma loop_body_frame n s :
  max (loop_body n s) = max s /\ req (loop_body n s) = req s /\
  stCnt_0_2 (loop_body n s) = stCnt_0_2 s /\
  stCnt_3_5 (loop_body n s) = stCnt_3_5 s /\
  stCnt_6_7 (loop_body n s) = stCnt_6_7 s /\
  stCnt_8_9 (loop_body n s) = stCnt_8_9 s /\
  length (sum (loop_body n s)) = length (sum s).
Proof.
  unfold loop_body.
  destruct (modulate (rd (max s) n) (rd (req s) n) (rd (sum s) n)) as [sm b].
  cbn. rewrite length_insert. repeat split.
Qed.

Lemma loop_body_sum n s :
  sum (loop_body n s) =
    <[n := fst (modulate (rd (max s) n) (rd (req s) n) (rd (sum s) n))]> (sum s).
Proof.
  unfold loop_body.
  destruct (modulate (rd (max s) n) (rd (req s) n) (rd (sum s) n)) as [sm b].
  reflexivity.
Qed.

(** The packed word after one pass: shifted by one, new bit in the LSB. *)
Lemma loop_body_outBits n s :
  outBits (loop_body n s) =
    2 * (outBits s mod 32768)
    + Z.b2z (snd (modulate (rd (max s) n) (rd (req s) n) (rd (sum s) n))).
Proof.
  unfold loop_body.
  destruct (modulate (rd (max s) n) (rd (req s) n) (rd (sum s) n)) as [sm b].
  cbn [outBits set_outBits snd].
  assert (Hs : uint16 (Z.shiftl (outBits s) 1) = 2 * (outBits s mod 32768)).
  { unfold uint16. rewrite Z.shiftl_mul_pow2 by lia.
    change (2 ^ 1) with 2. change 65536 with (2 * 32768).
    rewrite (Z.mul_comm (outBits s) 2).
    rewrite Zmult_mod_distr_l. reflexivity. }
  rewrite Hs.
  pose proof (Z.mod_pos_bound (outBits s) 32768 ltac:(lia)) as Hb.
  destruct b; cbn [Z.b2z].
  - apply uint16_small. lia.
  - lia.
Qed.

Lemma loop_body_bit0 n s :
  Z.testbit (outBits (loop_body n s)) 0 =
    snd (modulate (rd (max s) n) (rd (req s) n) (rd (sum s) n)).
Proof.
  rewrite loop_body_outBits. apply Z.testbit_0_r.
Qed.

Lemma loop_body_bit_succ n s j :
  0 <= j < 15 ->
  Z.testbit (outBits (loop_body n s)) (Z.succ j) = Z.testbit (outBits s) j.
Proof.
  intros Hj. rewrite loop_body_outBits.
  rewrite Z.testbit_succ_r by lia.
  change 32768 with (2 ^ 15). apply Z.mod_pow2_bits_low. lia.
Qed.

Lemma channel_step_loop_body m n s :
  m <> n -> channel_step n (loop_body m s) = channel_step n s.
Proof.
  intros Hne. unfold channel_step.
  destruct (loop_body_frame m s) as (Hm & Hr & _).
  rewrite Hm, Hr, loop_body_sum, rd_insert_ne by exact Hne. reflexivity.
Qed.

Lemma calc_in_cons m order s :
  calc_output_bits_in (m :: order) s = calc_output_bits_in order (loop_body m s).
Proof. reflexivity. Qed.

Lemma calc_in_frame order s :
  max (calc_output_bits_in order s) = max s /\
  req (calc_output_bits_in order s) = req s /\
  stCnt_0_2 (calc_output_bits_in order s) = stCnt_0_2 s /\
  stCnt_3_5 (calc_output_bits_in order s) = stCnt_3_5 s /\
  stCnt_6_7 (calc_output_bits_in order s) = stCnt_6_7 s /\
  stCnt_8_9 (calc_output_bits_in order s) = stCnt_8_9 s /\
  length (sum (calc_output_bits_in order s)) = length (sum s).
Proof.
  revert s. induction order as [|m order IH]; intros s.
  - repeat split.
  - rewrite calc_in_cons.
    destruct (IH (loop_body m s)) as (H1 & H2 & H3 & H4 & H5 & H6 & H7).
    destruct (loop_body_frame m s) as (G1 & G2 & G3 & G4 & G5 & G6 & G7).
    repeat split; congruence.
Qed.

(** A channel that is not visited keeps its integrator. *)
Lemma calc_in_sum_other order s (i : nat) :
  i ∉ order -> sum (calc_output_bits_in order s) !! i = sum s !! i.
Proof.
  revert s. induction order as [|m order IH]; intros s Hi; [reflexivity|].
  rewrite calc_in_cons. apply not_elem_of_cons in Hi as [Hne Hi].
  rewrite IH by exact Hi. rewrite loop_body_sum.
  apply list_lookup_insert_ne. congruence.
Qed.

(** A channel visited once gets exactly its own modulator step, whatever
    the other channels are and wherever it stands in the order. *)
Lemma calc_in_sum_visited order s (i : nat) :
  NoDup order -> i ∈ order -> (i < length (sum s))%nat ->
  sum (calc_output_bits_in order s) !! i = Some (fst (channel_step i s)).
Proof.
  revert s. induction order as [|m order IH]; intros s Hnd Hi Hlen.
  - inversion Hi.
  - rewrite calc_in_cons. apply NoDup_cons in Hnd as [Hm Hnd].
    apply elem_of_cons in Hi as [-> | Hi].
    + rewrite calc_in_sum_other by exact Hm. rewrite loop_body_sum.
      apply list_lookup_insert_eq. exact Hlen.
    + assert (Hne : m <> i) by (intros ->; contradiction).
      rewrite IH; [| exact Hnd | exact Hi |].
      * rewrite channel_step_loop_body by exact Hne. reflexivity.
      * destruct (loop_body_frame m s) as (_ & _ & _ & _ & _ & _ & Hl).
        rewrite Hl. exact Hlen.
Qed.

(** Visiting [order] shifts the old word left by [length order]. *)
Lemma calc_in_shift order s j :
  0 <= j -> Z.of_nat (length order) + j < 16 ->
  Z.testbit (outBits (calc_output_bits_in order s)) (Z.of_nat (length order) + j)
  = Z.testbit (outBits s) j.
Proof.
  revert s j. induction order as [|m order IH]; intros s j Hj Hlen.
  - reflexivity.
  - rewrite calc_in_cons. cbn [length] in *.
    replace (Z.of_nat (S (length order)) + j)
      with (Z.of_nat (length order) + Z.succ j) by lia.
    rewrite IH by lia. apply loop_body_bit_succ. lia.
Qed.

(** The channel visited at place [i] of [order] has its bit at place
    [length order - 1 - i] of the word, and the bit is the one of its
    own modulator step. *)
Lemma calc_in_bit order s (i n : nat) :
  NoDup order -> (length order <= 16)%nat -> order !! i = Some n ->
  Z.testbit (outBits (calc_output_bits_in order s))
            (Z.of_nat (length order - 1 - i))
  = snd (channel_step n s).
Proof.
  revert s i. induction order as [|m order IH]; intros s i Hnd Hlen Hi.
  - discriminate.
  - rewrite calc_in_cons. apply NoDup_cons in Hnd as [Hm Hnd].
    cbn [length] in *. destruct i as [|i].
    + injection Hi as ->.
      replace (Z.of_nat (S (length order) - 1 - 0))
        with (Z.of_nat (length order) + 0) by lia.
      rewrite calc_in_shift by lia. apply loop_body_bit0.
    + cbn in Hi.
      replace (S (length order) - 1 - S i)%nat
        with (length order - 1 - i)%nat by lia.
      rewrite (IH _ i Hnd) by (lia || exact Hi).
      rewrite channel_step_loop_body; [reflexivity|]. intros ->.
      apply Hm. apply list_elem_of_lookup. eauto.
Qed.

(** The program's loop is the visit in descending order. *)
Lemma loop_from_calc_in k s :
  loop_from k s = calc_output_bits_in (reverse (seq 0 k)) s.
Proof.
  revert s. induction k as [|k IH]; intros s; [reflexivity|].
  rewrite seq_S, reverse_snoc. cbn [loop_from Nat.add].
  rewrite calc_in_cons. apply IH.
Qed.

Lemma descending_lookup k (n : nat) :
  (n < k)%nat -> reverse (seq 0 k) !! (k - 1 - n)%nat = Some n.
Proof.
  intros Hn. rewrite reverse_lookup by (rewrite length_seq; lia).
  rewrite length_seq. apply lookup_seq. split; lia.
Qed.

Lemma descending_perm (order : list nat) k :
  order ≡ₚ seq 0 k ->
  NoDup order /\ length order = k /\ (forall i : nat, i ∈ order <-> (i < k)%nat).
Proof.
  intros Hp. split; [|split].
  - rewrite Hp. apply NoDup_seq.
  - rewrite Hp. apply length_seq.
  - intros i. rewrite Hp, elem_of_seq. lia.
Qed.

(** Any visit of all the channels, each once, leaves in every cell of
    [sum] the channel's own modulator step. *)
Lemma calc_in_sum_all (order : list nat) s :
  order ≡ₚ seq 0 (length (sum s)) ->
  forall i : nat,
    sum (calc_output_bits_in order s) !! i
    = (fun _ => fst (channel_step i s)) <$> (sum s !! i).
Proof.
  intros Hp i. destruct (descending_perm _ _ Hp) as (Hnd & _ & Hin).
  destruct (decide (i < length (sum s))%nat) as [Hlt | Hge].
  - rewrite calc_in_sum_visited; [| exact Hnd | apply Hin; exact Hlt | exact Hlt].
    destruct (lookup_lt_is_Some_2 (sum s) i Hlt) as [x ->]. reflexivity.
  - rewrite calc_in_sum_other by (rewrite Hin; exact Hge).
    rewrite lookup_ge_None_2 by lia. reflexivity.
Qed.

Lemma calc_output_bits_calc_in s :
  calc_output_bits s = calc_output_bits_in (reverse (seq 0 N_CH)) s.
Proof. apply loop_from_calc_in. Qed.

Lemma calc_output_bits_frame s :
  max (calc_output_bits s) = max s /\
  req (calc_output_bits s) = req s /\
  stCnt_0_2 (calc_output_bits s) = stCnt_0_2 s /\
  stCnt_3_5 (calc_output_bits s) = stCnt_3_5 s /\
  stCnt_6_7 (calc_output_bits s) = stCnt_6_7 s /\
  stCnt_8_9 (calc_output_bits s) = stCnt_8_9 s /\
  length (sum (calc_output_bits s)) = length (sum s).
Proof. rewrite calc_output_bits_calc_in. apply calc_in_frame. Qed.

(** What [calc_output_bits] does to channel [n]. *)
Lemma calc_output_bits_channel s (n : nat) :
  length (sum s) = N_CH -> (n < N_CH)%nat ->
  rd (sum (calc_output_bits s)) n = fst (channel_step n s) /\
  out_bit n (calc_output_bits s) = snd (channel_step n s).
Proof.
  intros Hlen Hn. rewrite calc_output_bits_calc_in. split.
  - unfold rd at 1. rewrite calc_in_sum_all.
    + destruct (lookup_lt_is_Some_2 (sum s) n) as [x ->]; [lia | reflexivity].
    + rewrite Hlen. apply reverse_Permutation.
  - unfold out_bit.
    pose proof (calc_in_bit (reverse (seq 0 N_CH)) s (N_CH - 1 - n) n) as Hb.
    rewrite length_reverse, length_seq in Hb.
    replace (N_CH - 1 - (N_CH - 1 - n))%nat with n in Hb by lia.
    apply Hb.
    + rewrite reverse_Permutation. apply NoDup_seq.
    + unfold N_CH. lia.
    + apply descending_lookup. exact Hn.
Qed.

End OutputLoop.

(** * Bit streams of the running system *)

Section Streams.

Lemma ds_run_window mx rq j k sm :
  drop j (snd (ds_run mx rq (j + k) sm))
  = snd (ds_run mx rq k (fst (ds_run mx rq j sm))).
Proof.
  rewrite ds_run_app. cbn [snd].
  rewrite <- (ds_run_length mx rq j sm) at 1.
  apply drop_app_length.
Qed.

Lemma ds_run_fst_app mx rq j k sm :
  fst (ds_run mx rq (j + k) sm) = fst (ds_run mx rq k (fst (ds_run mx rq j sm))).
Proof. rewrite ds_run_app. reflexivity. Qed.

(** With [req] untouched, the stream of channel [n] of the whole system
    is the stream of its modulator alone. *)
Lemma out_stream_ds_run (n : nat) k s :
  length (sum s) = N_CH -> (n < N_CH)%nat ->
  snd (out_stream n k s)
    = snd (ds_run (rd (max s) n) (rd (req s) n) k (rd (sum s) n)) /\
  rd (sum (fst (out_stream n k s))) n
    = fst (ds_run (rd (max s) n) (rd (req s) n) k (rd (sum s) n)).
Proof.
  intros Hlen Hn. revert s Hlen.
  induction k as [|k IH]; intros s Hlen; [split; reflexivity|].
  cbn [out_stream ds_run].
  destruct (calc_output_bits_channel s n Hlen Hn) as [Hsum Hbit].
  destruct (calc_output_bits_frame s) as (Hm & Hr & _ & _ & _ & _ & Hl).
  destruct (IH (calc_output_bits s)) as [IHb IHs]; [congruence|].
  rewrite Hm, Hr, Hsum in IHb, IHs. rewrite Hbit. unfold channel_step in *.
  destruct (modulate (rd (max s) n) (rd (req s) n) (rd (sum s) n)) as [sm1 b].
  cbn [fst snd] in *.
  destruct (out_stream n k (calc_output_bits s)) as [s2 bs].
  destruct (ds_run (rd (max s) n) (rd (req s) n) k sm1) as [sm2 bs'].
  cbn [fst snd] in *. split; congruence.
Qed.

End Streams.

(** * Duty cycle of the modulators *)

(** C1, as stated, fails: with resolution 100, requested level 25 and the
    integrator at 0, one hundred steps do not emit 25 bits equal to 1 (they
    emit 75), for the modulator alone and for a channel of
    [calc_output_bits]. *)
Lemma duty_cycle_not_req :
  count_bits true (snd (ds_run 100 25 100 0)) <> 25 /\
  count_bits true (snd (out_stream 6 100 quarter_state)) <> 25.
Proof. split; vm_compute; discriminate. Qed.

(** C1, amended: with the requested level held at [rq], [0 <= rq <= mx],
    and the integrator started at 0, every window of [mx] consecutive
    modulator steps emits exactly [rq] bits equal to 0 and [mx - rq] bits
    equal to 1, and after the first [mx] steps the integrator is back at
    0.  For resolution 100 and level 25 that is 75 one bits. *)
Theorem duty_cycle_zero_bits (mx rq : Z) (j : nat) :
  0 < mx -> 0 <= rq <= mx -> mx + rq <= 65536 ->
  count_bits false (drop j (snd (ds_run mx rq (j + Z.to_nat mx) 0))) = rq /\
  count_bits true (drop j (snd (ds_run mx rq (j + Z.to_nat mx) 0))) = mx - rq /\
  fst (ds_run mx rq (Z.to_nat mx) 0) = 0.
Proof.
  intros Hm Hr Hw. rewrite ds_run_window.
  destruct (ds_run_balance mx rq j 0 Hr ltac:(lia) Hw) as [Hb _].
  destruct (ds_run_period mx rq _ Hr Hb Hw) as (_ & Hz & Ho).
  destruct (ds_run_period mx rq 0 Hr ltac:(lia) Hw) as (Hf & _ & _).
  auto.
Qed.

Lemma duty_cycle_zero_bits_witness :
  count_bits false (drop 7 (snd (ds_run 100 25 (7 + Z.to_nat 100) 0))) = 25 /\
  count_bits true (drop 7 (snd (ds_run 100 25 (7 + Z.to_nat 100) 0))) = 100 - 25 /\
  fst (ds_run 100 25 (Z.to_nat 100) 0) = 0.
Proof. apply (duty_cycle_zero_bits 100 25 7); lia. Defined.

(** C3: for a channel [n] whose requested level [r] stays within its
    resolution [mx] and whose integrator starts at 0, every window of [mx]
    consecutive calls of [calc_output_bits] holds exactly [mx - r] bits
    equal to 1 and [r] bits equal to 0; the integrator is 0 again after the
    first [mx] calls, and at the end of any window it is what it was at the
    window's start. *)
Theorem calc_output_bits_density (s : state) (n j : nat) :
  length (sum s) = N_CH -> (n < N_CH)%nat ->
  0 <= rd (req s) n <= rd (max s) n ->
  rd (max s) n + rd (req s) n <= 65536 ->
  rd (sum s) n = 0 ->
  let mx := rd (max s) n in
  let w := drop j (snd (out_stream n (j + Z.to_nat mx) s)) in
  length w = Z.to_nat mx /\
  count_bits true w = mx - rd (req s) n /\
  count_bits false w = rd (req s) n /\
  rd (sum (fst (out_stream n (Z.to_nat mx) s))) n = 0 /\
  rd (sum (fst (out_stream n (j + Z.to_nat mx) s))) n
    = rd (sum (fst (out_stream n j s))) n.
Proof.
  intros Hlen Hn Hr Hw H0 mx w. subst mx w.
  destruct (out_stream_ds_run n (j + Z.to_nat (rd (max s) n)) s Hlen Hn) as [Hb Hs].
  destruct (out_stream_ds_run n (Z.to_nat (rd (max s) n)) s Hlen Hn) as [_ Hs0].
  destruct (out_stream_ds_run n j s Hlen Hn) as [_ Hsj].
  rewrite Hb, Hs, Hs0, Hsj, H0. clear Hb Hs Hs0 Hsj.
  rewrite ds_run_window, ds_run_fst_app, ds_run_length.
  set (m := rd (max s) n) in *. set (r := rd (req s) n) in *.
  destruct (Z.eq_dec m 0) as [Hz | Hnz].
  - assert (Hr0 : r = 0) by lia. rewrite Hz, Hr0.
    change (Z.to_nat 0) with 0%nat. cbn [ds_run fst snd count_bits].
    repeat split; reflexivity.
  - destruct (ds_run_balance m r j 0 Hr ltac:(lia) Hw) as [Hbj _].
    destruct (ds_run_period m r _ Hr Hbj Hw) as (Hf & Hz & Ho).
    destruct (ds_run_period m r 0 Hr ltac:(lia) Hw) as (Hf0 & _ & _).
    repeat split; assumption.
Qed.

Lemma calc_output_bits_density_witness :
  count_bits true (drop 3 (snd (out_stream 6 (3 + 100) quarter_state))) = 100 - 25.
Proof.
  apply (calc_output_bits_density quarter_state 6 3);
    [reflexivity | unfold N_CH; lia | cbn; lia | cbn; lia | reflexivity].
Defined.

(** * One step, channel by channel *)

(** C10: in a state that satisfies the documented invariants, one
    [calc_output_bits] gives channel [n] the integrator [sum + req] with
    bit 1 when that is below [max], and [sum + req - max] with bit 0
    otherwise, from the channel's own three cells alone; and visiting the
    channels in any other order [order] leaves the same integrators and,
    for every channel, the same bit (found at the place of the word that
    this order gives the channel). *)
Theorem step_channelwise_any_order (s : state) (order : list nat) (n : nat) :
  documented_inv s -> order ≡ₚ seq 0 N_CH -> (n < N_CH)%nat ->
  let a := rd (sum s) n + rd (req s) n in
  (rd (sum (calc_output_bits s)) n
     = (if a <? rd (max s) n then a else a - rd (max s) n) /\
   out_bit n (calc_output_bits s) = (a <? rd (max s) n)) /\
  sum (calc_output_bits_in order s) = sum (calc_output_bits s) /\
  (forall i : nat, order !! i = Some n ->
     Z.testbit (outBits (calc_output_bits_in order s)) (Z.of_nat (N_CH - 1 - i))
     = out_bit n (calc_output_bits s)).
Proof.
  intros [Hlen Hinv] Hp Hn a.
  destruct (calc_output_bits_channel s n Hlen Hn) as [Hsum Hbit].
  destruct (Hinv n Hn) as (Hm & Hr & Hs).
  split; [|split].
  - rewrite Hsum, Hbit. unfold channel_step.
    rewrite modulate_exact by lia. fold a.
    destruct (a <? rd (max s) n); split; reflexivity.
  - apply list_eq. intros i.
    rewrite calc_output_bits_calc_in.
    rewrite !calc_in_sum_all; [reflexivity | |].
    + rewrite Hlen. apply reverse_Permutation.
    + rewrite Hlen. exact Hp.
  - intros i Hi. rewrite Hbit.
    destruct (descending_perm _ _ Hp) as (Hnd & Hl & _).
    rewrite <- Hl at 1. apply calc_in_bit; [exact Hnd | | exact Hi].
    rewrite Hl. unfold N_CH. lia.
Qed.

Lemma step_channelwise_any_order_witness :
  sum (calc_output_bits_in (seq 0 N_CH) (main_init shipped))
  = sum (calc_output_bits (main_init shipped)).
Proof.
  apply (step_channelwise_any_order (main_init shipped) (seq 0 N_CH) 3).
  - split; [reflexivity|]. intros n Hn.
    do 10 (destruct n as [|n]; [vm_compute; intuition discriminate|]).
    unfold N_CH in Hn. lia.
  - reflexivity.
  - unfold N_CH. lia.
Defined.

(** * The envelope functions *)

Section Envelopes.

Lemma sint16_small z : -32768 <= z < 32768 -> sint16 z = z.
Proof. intros H. unfold sint16. rewrite Z.mod_small by lia. lia. Qed.

Lemma in_seg_spec p lo hi : in_seg p lo hi = true <-> lo <= p < hi.
Proof. unfold in_seg. rewrite andb_true_iff, Z.leb_le, Z.ltb_lt. tauto. Qed.

(** Case analysis on every segment test of the goal. *)
Ltac seg_cases :=
  repeat match goal with
         | |- context [in_seg ?p ?lo ?hi] =>
             let E := fresh "E" in
             destruct (in_seg p lo hi) eqn:E;
             [apply in_seg_spec in E
             |apply not_true_iff_false in E; rewrite in_seg_spec in E]
         end.

(** The segments exclude one another, for every step count: the chain of
    [if]s does what the chain of [else if]s does. *)
Lemma calc_CH_0_TO_2_single c s :
  calc_CH_0_TO_2 c s =
    set_stCnt_0_2 (apply_adj (INC_CH_0_2 c) (segment_0_2 c (stCnt_0_2 s)) s)
                  (next_stCnt (stCnt_0_2 s) (6 * STEPS_CH_0_2 c)).
Proof.
  unfold calc_CH_0_TO_2, segment_0_2. cbv zeta.
  generalize (STEPS_CH_0_2 c) (stCnt_0_2 s) (INC_CH_0_2 c). intros st p inc.
  seg_cases; try reflexivity; exfalso; lia.
Qed.

Lemma calc_CH_3_TO_5_single c s :
  calc_CH_3_TO_5 c s =
    set_stCnt_3_5 (apply_adj (INC_CH_3_5 c) (segment_3_5 c (stCnt_3_5 s)) s)
                  (next_stCnt (stCnt_3_5 s) (6 * STEPS_CH_3_5 c)).
Proof.
  unfold calc_CH_3_TO_5, segment_3_5. cbv zeta.
  generalize (STEPS_CH_3_5 c) (stCnt_3_5 s) (INC_CH_3_5 c). intros st p inc.
  seg_cases; try reflexivity; exfalso; lia.
Qed.

Lemma calc_CH_6_TO_7_single c s :
  calc_CH_6_TO_7 c s =
    set_stCnt_6_7 (apply_adj (INC_CH_6_7 c) (segment_6_7 c (stCnt_6_7 s)) s)
                  (next_stCnt (stCnt_6_7 s) (4 * STEPS_CH_6_7 c)).
Proof.
  unfold calc_CH_6_TO_7, segment_6_7. cbv zeta.
  generalize (STEPS_CH_6_7 c) (stCnt_6_7 s) (INC_CH_6_7 c). intros st p inc.
  seg_cases; try reflexivity; exfalso; lia.
Qed.

Lemma calc_CH_8_TO_9_single c s :
  calc_CH_8_TO_9 c s =
    set_stCnt_8_9 (apply_adj (INC_CH_8_9 c) (segment_8_9 c (stCnt_8_9 s)) s)
                  (next_stCnt (stCnt_8_9 s) (4 * STEPS_CH_8_9 c)).
Proof.
  unfold calc_CH_8_TO_9, segment_8_9. cbv zeta.
  generalize (STEPS_CH_8_9 c) (stCnt_8_9 s) (INC_CH_8_9 c). intros st p inc.
  seg_cases; try reflexivity; exfalso; lia.
Qed.

(** An adjustment touches [req] and nothing else. *)
Lemma apply_adj_fields inc a s :
  apply_adj inc a s = set_req s (adj_req inc a (req s)).
Proof. destruct a, s; reflexivity. Qed.

Lemma segment_0_2_member c p n :
  adj_channel (segment_0_2 c p) = Some n -> n ∈ [0; 1; 2]%nat.
Proof.
  unfold segment_0_2. cbv zeta.
  repeat (match goal with |- context [in_seg ?a ?b ?d] => destruct (in_seg a b d) end);
    cbn; intros [= <-] || intros [=]; repeat constructor.
Qed.

Lemma segment_3_5_member c p n :
  adj_channel (segment_3_5 c p) = Some n -> n ∈ [3; 4; 5]%nat.
Proof.
  unfold segment_3_5. cbv zeta.
  repeat (match goal with |- context [in_seg ?a ?b ?d] => destruct (in_seg a b d) end);
    cbn; intros [= <-] || intros [=]; repeat constructor.
Qed.

Lemma segment_6_7_member c p n :
  adj_channel (segment_6_7 c p) = Some n -> n ∈ [6; 7]%nat.
Proof.
  unfold segment_6_7. cbv zeta.
  repeat (match goal with |- context [in_seg ?a ?b ?d] => destruct (in_seg a b d) end);
    cbn; intros [= <-] || intros [=]; repeat constructor.
Qed.

Lemma segment_8_9_member c p n :
  adj_channel (segment_8_9 c p) = Some n -> n ∈ [8; 9]%nat.
Proof.
  unfold segment_8_9. cbv zeta.
  repeat (match goal with |- context [in_seg ?a ?b ?d] => destruct (in_seg a b d) end);
    cbn; intros [= <-] || intros [=]; repeat constructor.
Qed.

(** ** The shipped ramps, phase by phase *)

Ltac split_cmp :=
  repeat (match goal with
          | |- context [?a <? ?b] => destruct (Z.ltb_spec a b)
          | |- context [?a <=? ?b] => destruct (Z.leb_spec a b)
          end; try (exfalso; lia)).

Ltac list_eq_lia :=
  cbn [andb adj_req rd app insert list_insert lookup list_lookup default
       from_option id];
  unfold uint8;
  repeat (apply (f_equal2 cons); [Z.to_euclidean_division_equations; lia|]);
  reflexivity.

Ltac env_step :=
  unfold in_seg, next_stCnt, rgb_env, rg_env;
  rewrite sint16_small by lia; split_cmp; list_eq_lia.

Lemma env_step_0_2 p (T : list Z) :
  0 <= p < 600 ->
  adj_req 2 (segment_0_2 shipped p) (rgb_env 200 100 2 p ++ T)
  = rgb_env 200 100 2 (next_stCnt p 600) ++ T.
Proof. intros Hp. unfold segment_0_2. cbn [STEPS_CH_0_2 shipped]. env_step. Qed.

Lemma env_step_3_5 p a b c (T : list Z) :
  0 <= p < 600 ->
  adj_req 2 (segment_3_5 shipped p) ([a; b; c] ++ rgb_env 200 100 2 p ++ T)
  = [a; b; c] ++ rgb_env 200 100 2 (next_stCnt p 600) ++ T.
Proof. intros Hp. unfold segment_3_5. cbn [STEPS_CH_3_5 shipped]. env_step. Qed.

Lemma env_step_6_7 p a b c d e f (T : list Z) :
  0 <= p < 200 ->
  adj_req 2 (segment_6_7 shipped p) ([a; b; c; d; e; f] ++ rg_env 100 50 2 p ++ T)
  = [a; b; c; d; e; f] ++ rg_env 100 50 2 (next_stCnt p 200) ++ T.
Proof. intros Hp. unfold segment_6_7. cbn [STEPS_CH_6_7 shipped]. env_step. Qed.

Lemma env_step_8_9 p a b c d e f g h (T : list Z) :
  0 <= p < 600 ->
  adj_req 1 (segment_8_9 shipped p)
          ([a; b; c; d; e; f; g; h] ++ rg_env 150 150 1 p ++ T)
  = [a; b; c; d; e; f; g; h] ++ rg_env 150 150 1 (next_stCnt p 600) ++ T.
Proof. intros Hp. unfold segment_8_9. cbn [STEPS_CH_8_9 shipped]. env_step. Qed.

Lemma next_stCnt_range p len :
  0 <= p < len -> len < 32768 -> 0 <= next_stCnt p len < len.
Proof.
  intros Hp Hl. unfold next_stCnt. rewrite sint16_small by lia.
  destruct (Z.leb_spec len (p + 1)); lia.
Qed.

(** Levels at a phase and at the next one: three (or two) values inside
    the resolution, moving by at most the increment. *)
Lemma rgb_env_next p :
  0 <= p < 600 ->
  exists a b c a' b' c',
    rgb_env 200 100 2 p = [a; b; c] /\
    rgb_env 200 100 2 (next_stCnt p 600) = [a'; b'; c'] /\
    (0 <= a <= 200 /\ 0 <= b <= 200 /\ 0 <= c <= 200) /\
    (-2 <= a' - a <= 2 /\ -2 <= b' - b <= 2 /\ -2 <= c' - c <= 2).
Proof.
  intros Hp. unfold next_stCnt, rgb_env. rewrite sint16_small by lia.
  split_cmp; do 6 eexists; (split; [reflexivity|]); (split; [reflexivity|]); lia.
Qed.

Lemma rg_env_next_6_7 p :
  0 <= p < 200 ->
  exists a b a' b',
    rg_env 100 50 2 p = [a; b] /\
    rg_env 100 50 2 (next_stCnt p 200) = [a'; b'] /\
    (0 <= a <= 100 /\ 0 <= b <= 100) /\
    (-2 <= a' - a <= 2 /\ -2 <= b' - b <= 2).
Proof.
  intros Hp. unfold next_stCnt, rg_env. rewrite sint16_small by lia.
  split_cmp; do 4 eexists; (split; [reflexivity|]); (split; [reflexivity|]); lia.
Qed.

Lemma rg_env_next_8_9 p :
  0 <= p < 600 ->
  exists a b a' b',
    rg_env 150 150 1 p = [a; b] /\
    rg_env 150 150 1 (next_stCnt p 600) = [a'; b'] /\
    (0 <= a <= 150 /\ 0 <= b <= 150) /\
    (-2 <= a' - a <= 2 /\ -2 <= b' - b <= 2).
Proof.
  intros Hp. unfold next_stCnt, rg_env. rewrite sint16_small by lia.
  split_cmp; do 4 eexists; (split; [reflexivity|]); (split; [reflexivity|]); lia.
Qed.

End Envelopes.

(** * Invariants of the running system *)

Section Invariants.

Ltac fields :=
  cbn [max req sum outBits stCnt_0_2 stCnt_3_5 stCnt_6_7 stCnt_8_9
       set_max set_req set_sum set_outBits
       set_stCnt_0_2 set_stCnt_3_5 set_stCnt_6_7 set_stCnt_8_9].

Lemma calc_CH_0_TO_2_frame s :
  let s' := calc_CH_0_TO_2 shipped s in
  max s' = max s /\ sum s' = sum s /\ outBits s' = outBits s /\
  stCnt_0_2 s' = next_stCnt (stCnt_0_2 s) 600 /\
  stCnt_3_5 s' = stCnt_3_5 s /\ stCnt_6_7 s' = stCnt_6_7 s /\
  stCnt_8_9 s' = stCnt_8_9 s.
Proof.
  cbv zeta. rewrite calc_CH_0_TO_2_single, apply_adj_fields. fields.
  repeat split.
Qed.

Lemma calc_CH_3_TO_5_frame s :
  let s' := calc_CH_3_TO_5 shipped s in
  max s' = max s /\ sum s' = sum s /\ outBits s' = outBits s /\
  stCnt_0_2 s' = stCnt_0_2 s /\
  stCnt_3_5 s' = next_stCnt (stCnt_3_5 s) 600 /\
  stCnt_6_7 s' = stCnt_6_7 s /\ stCnt_8_9 s' = stCnt_8_9 s.
Proof.
  cbv zeta. rewrite calc_CH_3_TO_5_single, apply_adj_fields. fields.
  repeat split.
Qed.

Lemma calc_CH_6_TO_7_frame s :
  let s' := calc_CH_6_TO_7 shipped s in
  max s' = max s /\ sum s' = sum s /\ outBits s' = outBits s /\
  stCnt_0_2 s' = stCnt_0_2 s /\ stCnt_3_5 s' = stCnt_3_5 s /\
  stCnt_6_7 s' = next_stCnt (stCnt_6_7 s) 200 /\
  stCnt_8_9 s' = stCnt_8_9 s.
Proof.
  cbv zeta. rewrite calc_CH_6_TO_7_single, apply_adj_fields. fields.
  repeat split.
Qed.

Lemma calc_CH_8_TO_9_frame s :
  let s' := calc_CH_8_TO_9 shipped s in
  max s' = max s /\ sum s' = sum s /\ outBits s' = outBits s /\
  stCnt_0_2 s' = stCnt_0_2 s /\ stCnt_3_5 s' = stCnt_3_5 s /\
  stCnt_6_7 s' = stCnt_6_7 s /\
  stCnt_8_9 s' = next_stCnt (stCnt_8_9 s) 600.
Proof.
  cbv zeta. rewrite calc_CH_8_TO_9_single, apply_adj_fields. fields.
  repeat split.
Qed.

(** Each envelope function keeps the levels on the curve of its phase. *)
Lemma calc_CH_0_TO_2_env s : env_inv s -> env_inv (calc_CH_0_TO_2 shipped s).
Proof.
  intros (Hmax & (H0 & H3 & H6 & H8) & Hreq).
  rewrite calc_CH_0_TO_2_single, apply_adj_fields. unfold env_inv. fields.
  change (INC_CH_0_2 shipped) with 2. change (6 * STEPS_CH_0_2 shipped) with 600.
  pose proof (next_stCnt_range (stCnt_0_2 s) 600 H0 ltac:(lia)).
  repeat split; try assumption; try lia.
  rewrite Hreq. apply env_step_0_2. exact H0.
Qed.

Lemma calc_CH_3_TO_5_env s : env_inv s -> env_inv (calc_CH_3_TO_5 shipped s).
Proof.
  intros (Hmax & (H0 & H3 & H6 & H8) & Hreq).
  rewrite calc_CH_3_TO_5_single, apply_adj_fields. unfold env_inv. fields.
  change (INC_CH_3_5 shipped) with 2. change (6 * STEPS_CH_3_5 shipped) with 600.
  pose proof (next_stCnt_range (stCnt_3_5 s) 600 H3 ltac:(lia)).
  repeat split; try assumption; try lia.
  rewrite Hreq.
  destruct (rgb_env_next _ H0) as (a & b & c & _ & _ & _ & -> & _).
  apply env_step_3_5. exact H3.
Qed.

Lemma calc_CH_6_TO_7_env s : env_inv s -> env_inv (calc_CH_6_TO_7 shipped s).
Proof.
  intros (Hmax & (H0 & H3 & H6 & H8) & Hreq).
  rewrite calc_CH_6_TO_7_single, apply_adj_fields. unfold env_inv. fields.
  change (INC_CH_6_7 shipped) with 2. change (4 * STEPS_CH_6_7 shipped) with 200.
  pose proof (next_stCnt_range (stCnt_6_7 s) 200 H6 ltac:(lia)).
  repeat split; try assumption; try lia.
  rewrite Hreq.
  destruct (rgb_env_next _ H0) as (a & b & c & _ & _ & _ & -> & _).
  destruct (rgb_env_next _ H3) as (d & e & f & _ & _ & _ & -> & _).
  apply (env_step_6_7 _ a b c d e f). exact H6.
Qed.

Lemma calc_CH_8_TO_9_env s : env_inv s -> env_inv (calc_CH_8_TO_9 shipped s).
Proof.
  intros (Hmax & (H0 & H3 & H6 & H8) & Hreq).
  rewrite calc_CH_8_TO_9_single, apply_adj_fields. unfold env_inv. fields.
  change (INC_CH_8_9 shipped) with 1. change (4 * STEPS_CH_8_9 shipped) with 600.
  pose proof (next_stCnt_range (stCnt_8_9 s) 600 H8 ltac:(lia)).
  repeat split; try assumption; try lia.
  rewrite Hreq.
  destruct (rgb_env_next _ H0) as (a & b & c & _ & _ & _ & -> & _).
  destruct (rgb_env_next _ H3) as (d & e & f & _ & _ & _ & -> & _).
  destruct (rg_env_next_6_7 _ H6) as (g & h & _ & _ & -> & _).
  pose proof (env_step_8_9 _ a b c d e f g h [] H8) as E.
  rewrite !app_nil_r in E. exact E.
Qed.

Lemma calc_output_bits_env s : env_inv s -> env_inv (calc_output_bits s).
Proof.
  intros Hi. unfold env_inv.
  destruct (calc_output_bits_frame s) as (-> & -> & -> & -> & -> & -> & _).
  exact Hi.
Qed.

Lemma exec_env f s : env_inv s -> env_inv (exec shipped f s).
Proof.
  destruct f; cbn [exec].
  - apply calc_CH_0_TO_2_env.
  - apply calc_CH_3_TO_5_env.
  - apply calc_CH_6_TO_7_env.
  - apply calc_CH_8_TO_9_env.
  - apply calc_output_bits_env.
Qed.

(** On the curve every level is within its channel's resolution. *)
Lemma env_inv_req_bounds s (n : nat) :
  env_inv s -> (n < N_CH)%nat -> 0 <= rd (req s) n <= rd (max s) n.
Proof.
  intros (Hmax & (H0 & H3 & H6 & H8) & Hreq) Hn. rewrite Hmax, Hreq.
  destruct (rgb_env_next _ H0) as (a & b & c & _ & _ & _ & -> & _ & Ha & _).
  destruct (rgb_env_next _ H3) as (d & e & f & _ & _ & _ & -> & _ & Hd & _).
  destruct (rg_env_next_6_7 _ H6) as (g & h & _ & _ & -> & _ & Hg & _).
  destruct (rg_env_next_8_9 _ H8) as (i & j & _ & _ & -> & _ & Hi & _).
  do 10 (destruct n as [|n]; [cbn; lia|]). unfold N_CH in Hn. lia.
Qed.

Lemma env_inv_chan s (n : nat) :
  env_inv s -> (n < N_CH)%nat -> 1 <= rd (max s) n <= 200.
Proof.
  intros (Hmax & _) Hn. rewrite Hmax.
  do 10 (destruct n as [|n]; [cbn; lia|]). unfold N_CH in Hn. lia.
Qed.

(** One modulator step keeps the integrator below the resolution. *)
Lemma modulate_range mx rq sm :
  0 <= rq <= mx -> 0 <= sm < mx -> mx + rq <= 65536 ->
  0 <= fst (modulate mx rq sm) < mx.
Proof.
  intros Hr Hs Hw. rewrite modulate_exact by lia.
  destruct (Z.ltb_spec (sm + rq) mx); cbn [fst]; lia.
Qed.

Lemma calc_output_bits_sys s : sys_inv s -> sys_inv (calc_output_bits s).
Proof.
  intros [He [Hlen Hs]]. split; [apply calc_output_bits_env; exact He|].
  destruct (calc_output_bits_frame s) as (Hm & _ & _ & _ & _ & _ & Hl).
  split; [congruence|]. intros n Hn.
  destruct (calc_output_bits_channel s n Hlen Hn) as [-> _]. rewrite Hm.
  pose proof (env_inv_req_bounds s n He Hn).
  pose proof (env_inv_chan s n He Hn).
  apply modulate_range; [assumption | apply Hs; exact Hn | lia].
Qed.

Lemma exec_sys f s : sys_inv s -> sys_inv (exec shipped f s).
Proof.
  intros Hi. destruct f; try (apply calc_output_bits_sys; exact Hi);
    destruct Hi as [He Hs]; (split; [apply exec_env; exact He|]);
    unfold sum_inv; cbn [exec].
  - destruct (calc_CH_0_TO_2_frame s) as (-> & -> & _). exact Hs.
  - destruct (calc_CH_3_TO_5_frame s) as (-> & -> & _). exact Hs.
  - destruct (calc_CH_6_TO_7_frame s) as (-> & -> & _). exact Hs.
  - destruct (calc_CH_8_TO_9_frame s) as (-> & -> & _). exact Hs.
Qed.

Lemma run_cons c f fs s : run c (f :: fs) s = run c fs (exec c f s).
Proof. reflexivity. Qed.

Lemma run_app c fs gs s : run c (fs ++ gs) s = run c gs (run c fs s).
Proof. apply foldl_app. Qed.

Lemma run_sys fs s : sys_inv s -> sys_inv (run shipped fs s).
Proof.
  revert s. induction fs as [|f fs IH]; intros s Hi; [exact Hi|].
  rewrite run_cons. apply IH, exec_sys, Hi.
Qed.

Lemma main_init_sys : sys_inv (main_init shipped).
Proof.
  split.
  - repeat split; vm_compute; reflexivity || discriminate.
  - split; [reflexivity|]. intros n Hn.
    do 10 (destruct n as [|n]; [vm_compute; split; reflexivity || discriminate|]).
    unfold N_CH in Hn. lia.
Qed.

(** Every state the program can be in, whatever the order of the calls. *)
Lemma reachable_sys fs : sys_inv (run shipped fs (main_init shipped)).
Proof. apply run_sys, main_init_sys. Qed.

(** No call moves a level by more than the increment. *)
Lemma exec_req_delta f s (n : nat) :
  env_inv s -> -2 <= rd (req (exec shipped f s)) n - rd (req s) n <= 2.
Proof.
  intros He. pose proof (exec_env f s He) as He'.
  destruct He as (_ & (H0 & H3 & H6 & H8) & Hreq).
  destruct He' as (_ & _ & Hreq'). rewrite Hreq, Hreq'.
  destruct (rgb_env_next _ H0) as (a & b & c & a' & b' & c' & E0 & E0' & _ & D0).
  destruct (rgb_env_next _ H3) as (d & e & f0 & d' & e' & f' & E3 & E3' & _ & D3).
  destruct (rg_env_next_6_7 _ H6) as (g & h & g' & h' & E6 & E6' & _ & D6).
  destruct (rg_env_next_8_9 _ H8) as (i & j & i' & j' & E8 & E8' & _ & D8).
  destruct f; cbn [exec].
  - destruct (calc_CH_0_TO_2_frame s) as (_ & _ & _ & -> & -> & -> & ->).
    rewrite E0, E0', E3, E6, E8.
    do 10 (destruct n as [|n]; [cbn; lia|]). cbn; lia.
  - destruct (calc_CH_3_TO_5_frame s) as (_ & _ & _ & -> & -> & -> & ->).
    rewrite E0, E3', E3, E6, E8.
    do 10 (destruct n as [|n]; [cbn; lia|]). cbn; lia.
  - destruct (calc_CH_6_TO_7_frame s) as (_ & _ & _ & -> & -> & -> & ->).
    rewrite E0, E3, E6', E6, E8.
    do 10 (destruct n as [|n]; [cbn; lia|]). cbn; lia.
  - destruct (calc_CH_8_TO_9_frame s) as (_ & _ & _ & -> & -> & -> & ->).
    rewrite E0, E3, E6, E8', E8.
    do 10 (destruct n as [|n]; [cbn; lia|]). cbn; lia.
  - destruct (calc_output_bits_frame s) as (_ & _ & -> & -> & -> & -> & _).
    lia.
Qed.

End Invariants.

(** * Full cycles of the envelopes *)

Section Cycles.

Lemma state_eq s s' :
  max s' = max s -> req s' = req s -> sum s' = sum s ->
  outBits s' = outBits s ->
  stCnt_0_2 s' = stCnt_0_2 s -> stCnt_3_5 s' = stCnt_3_5 s ->
  stCnt_6_7 s' = stCnt_6_7 s -> stCnt_8_9 s' = stCnt_8_9 s ->
  s' = s.
Proof. destruct s, s'; cbn; intros; subst; reflexivity. Qed.

(** The counter is a counter modulo the cycle length. *)
Lemma next_stCnt_iter len k p :
  0 <= p < len -> len < 32768 ->
  Nat.iter k (fun q => next_stCnt q len) p = (p + Z.of_nat k) mod len.
Proof.
  intros Hp Hl. induction k as [|k IH].
  - cbn. rewrite Z.add_0_r, Z.mod_small; [reflexivity | exact Hp].
  - rewrite Nat.iter_succ, IH.
    pose proof (Z.mod_pos_bound (p + Z.of_nat k) len ltac:(lia)) as Hb.
    unfold next_stCnt. rewrite sint16_small by lia.
    replace (p + Z.of_nat (S k)) with ((p + Z.of_nat k) + 1) by lia.
    rewrite <- (Zplus_mod_idemp_l (p + Z.of_nat k)).
    destruct (Z.leb_spec len ((p + Z.of_nat k) mod len + 1)) as [Hge | Hlt].
    + replace ((p + Z.of_nat k) mod len + 1) with len by lia.
      rewrite Z_mod_same_full. reflexivity.
    + rewrite (Z.mod_small ((p + Z.of_nat k) mod len + 1) len) by lia.
      reflexivity.
Qed.

Lemma next_stCnt_cycle len p :
  0 <= p < len -> len < 32768 ->
  Nat.iter (Z.to_nat len) (fun q => next_stCnt q len) p = p.
Proof.
  intros Hp Hl. rewrite next_stCnt_iter by assumption.
  rewrite Z2Nat.id by lia.
  rewrite <- (Z.mul_1_l len) at 1. rewrite Z.mod_add by lia.
  apply Z.mod_small. exact Hp.
Qed.

(** On the curve, the levels are a function of the four counters. *)
Lemma env_inv_req_eq s s' :
  env_inv s -> env_inv s' ->
  stCnt_0_2 s' = stCnt_0_2 s -> stCnt_3_5 s' = stCnt_3_5 s ->
  stCnt_6_7 s' = stCnt_6_7 s -> stCnt_8_9 s' = stCnt_8_9 s ->
  max s' = max s /\ req s' = req s.
Proof.
  intros (Hm & _ & Hr) (Hm' & _ & Hr') E0 E3 E6 E8.
  rewrite Hm, Hm', Hr, Hr', E0, E3, E6, E8. split; reflexivity.
Qed.

Lemma iter_calc_CH_0_TO_2 k s :
  env_inv s ->
  let s' := Nat.iter k (calc_CH_0_TO_2 shipped) s in
  env_inv s' /\ sum s' = sum s /\ outBits s' = outBits s /\
  stCnt_0_2 s' = Nat.iter k (fun q => next_stCnt q 600) (stCnt_0_2 s) /\
  stCnt_3_5 s' = stCnt_3_5 s /\ stCnt_6_7 s' = stCnt_6_7 s /\
  stCnt_8_9 s' = stCnt_8_9 s.
Proof.
  intros He. cbv zeta. induction k as [|k IH]; [split; [exact He | repeat split]|].
  rewrite !Nat.iter_succ. destruct IH as (IHe & I1 & I2 & I3 & I4 & I5 & I6).
  destruct (calc_CH_0_TO_2_frame (Nat.iter k (calc_CH_0_TO_2 shipped) s))
    as (_ & F1 & F2 & F3 & F4 & F5 & F6).
  split; [apply calc_CH_0_TO_2_env; exact IHe|].
  repeat split; congruence.
Qed.

Lemma iter_calc_CH_3_TO_5 k s :
  env_inv s ->
  let s' := Nat.iter k (calc_CH_3_TO_5 shipped) s in
  env_inv s' /\ sum s' = sum s /\ outBits s' = outBits s /\
  stCnt_0_2 s' = stCnt_0_2 s /\
  stCnt_3_5 s' = Nat.iter k (fun q => next_stCnt q 600) (stCnt_3_5 s) /\
  stCnt_6_7 s' = stCnt_6_7 s /\ stCnt_8_9 s' = stCnt_8_9 s.
Proof.
  intros He. cbv zeta. induction k as [|k IH]; [split; [exact He | repeat split]|].
  rewrite !Nat.iter_succ. destruct IH as (IHe & I1 & I2 & I3 & I4 & I5 & I6).
  destruct (calc_CH_3_TO_5_frame (Nat.iter k (calc_CH_3_TO_5 shipped) s))
    as (_ & F1 & F2 & F3 & F4 & F5 & F6).
  split; [apply calc_CH_3_TO_5_env; exact IHe|].
  repeat split; congruence.
Qed.

Lemma iter_calc_CH_6_TO_7 k s :
  env_inv s ->
  let s' := Nat.iter k (calc_CH_6_TO_7 shipped) s in
  env_inv s' /\ sum s' = sum s /\ outBits s' = outBits s /\
  stCnt_0_2 s' = stCnt_0_2 s /\ stCnt_3_5 s' = stCnt_3_5 s /\
  stCnt_6_7 s' = Nat.iter k (fun q => next_stCnt q 200) (stCnt_6_7 s) /\
  stCnt_8_9 s' = stCnt_8_9 s.
Proof.
  intros He. cbv zeta. induction k as [|k IH]; [split; [exact He | repeat split]|].
  rewrite !Nat.iter_succ. destruct IH as (IHe & I1 & I2 & I3 & I4 & I5 & I6).
  destruct (calc_CH_6_TO_7_frame (Nat.iter k (calc_CH_6_TO_7 shipped) s))
    as (_ & F1 & F2 & F3 & F4 & F5 & F6).
  split; [apply calc_CH_6_TO_7_env; exact IHe|].
  repeat split; congruence.
Qed.

Lemma iter_calc_CH_8_TO_9 k s :
  env_inv s ->
  let s' := Nat.iter k (calc_CH_8_TO_9 shipped) s in
  env_inv s' /\ sum s' = sum s /\ outBits s' = outBits s /\
  stCnt_0_2 s' = stCnt_0_2 s /\ stCnt_3_5 s' = stCnt_3_5 s /\
  stCnt_6_7 s' = stCnt_6_7 s /\
  stCnt_8_9 s' = Nat.iter k (fun q => next_stCnt q 600) (stCnt_8_9 s).
Proof.
  intros He. cbv zeta. induction k as [|k IH]; [split; [exact He | repeat split]|].
  rewrite !Nat.iter_succ. destruct IH as (IHe & I1 & I2 & I3 & I4 & I5 & I6).
  destruct (calc_CH_8_TO_9_frame (Nat.iter k (calc_CH_8_TO_9 shipped) s))
    as (_ & F1 & F2 & F3 & F4 & F5 & F6).
  split; [apply calc_CH_8_TO_9_env; exact IHe|].
  repeat split; congruence.
Qed.

End Cycles.

(** C4: from any state on the envelope curve (every state the program
    reaches), calling a group's envelope function once per step of its
    cycle, [total_segments * segment_length] times (600, 600, 200 and 600
    calls), restores the whole state: the group's levels, its counter and
    everything else.  Started at levels (200, 0, 0) and phase 0, channels
    0 to 2 are back at (200, 0, 0) after 600 calls. *)
Theorem envelope_closure (s : state) :
  env_inv s ->
  Nat.iter (Z.to_nat (6 * STEPS_CH_0_2 shipped)) (calc_CH_0_TO_2 shipped) s = s /\
  Nat.iter (Z.to_nat (6 * STEPS_CH_3_5 shipped)) (calc_CH_3_TO_5 shipped) s = s /\
  Nat.iter (Z.to_nat (4 * STEPS_CH_6_7 shipped)) (calc_CH_6_TO_7 shipped) s = s /\
  Nat.iter (Z.to_nat (4 * STEPS_CH_8_9 shipped)) (calc_CH_8_TO_9 shipped) s = s.
Proof.
  intros He. pose proof He as (_ & (H0 & H3 & H6 & H8) & _).
  change (6 * STEPS_CH_0_2 shipped) with 600.
  change (6 * STEPS_CH_3_5 shipped) with 600.
  change (4 * STEPS_CH_6_7 shipped) with 200.
  change (4 * STEPS_CH_8_9 shipped) with 600.
  repeat split.
  - destruct (iter_calc_CH_0_TO_2 (Z.to_nat 600) s He) as (He' & I1 & I2 & I3 & I4 & I5 & I6).
    rewrite next_stCnt_cycle in I3 by lia.
    destruct (env_inv_req_eq s _ He He' I3 I4 I5 I6). apply state_eq; assumption.
  - destruct (iter_calc_CH_3_TO_5 (Z.to_nat 600) s He) as (He' & I1 & I2 & I3 & I4 & I5 & I6).
    rewrite next_stCnt_cycle in I4 by lia.
    destruct (env_inv_req_eq s _ He He' I3 I4 I5 I6). apply state_eq; assumption.
  - destruct (iter_calc_CH_6_TO_7 (Z.to_nat 200) s He) as (He' & I1 & I2 & I3 & I4 & I5 & I6).
    rewrite next_stCnt_cycle in I5 by lia.
    destruct (env_inv_req_eq s _ He He' I3 I4 I5 I6). apply state_eq; assumption.
  - destruct (iter_calc_CH_8_TO_9 (Z.to_nat 600) s He) as (He' & I1 & I2 & I3 & I4 & I5 & I6).
    rewrite next_stCnt_cycle in I6 by lia.
    destruct (env_inv_req_eq s _ He He' I3 I4 I5 I6). apply state_eq; assumption.
Qed.

Lemma envelope_closure_witness :
  Nat.iter (Z.to_nat (6 * STEPS_CH_0_2 shipped)) (calc_CH_0_TO_2 shipped)
           (main_init shipped) = main_init shipped.
Proof.
  apply (envelope_closure (main_init shipped)).
  repeat split; vm_compute; reflexivity || discriminate.
Defined.

(** C8: for every configuration and every state, one call of an envelope
    function changes [req] by at most one increment or decrement, of one
    channel of its own group: the call is a single adjustment [a] (none, one
    [+=] or one [-=]) followed by the counter's update. *)
Theorem advance_single_adjustment (c : config) (s : state) :
  (exists a,
     (forall n, adj_channel a = Some n -> n ∈ [0; 1; 2]%nat) /\
     calc_CH_0_TO_2 c s =
       set_stCnt_0_2 (apply_adj (INC_CH_0_2 c) a s)
                     (next_stCnt (stCnt_0_2 s) (6 * STEPS_CH_0_2 c))) /\
  (exists a,
     (forall n, adj_channel a = Some n -> n ∈ [3; 4; 5]%nat) /\
     calc_CH_3_TO_5 c s =
       set_stCnt_3_5 (apply_adj (INC_CH_3_5 c) a s)
                     (next_stCnt (stCnt_3_5 s) (6 * STEPS_CH_3_5 c))) /\
  (exists a,
     (forall n, adj_channel a = Some n -> n ∈ [6; 7]%nat) /\
     calc_CH_6_TO_7 c s =
       set_stCnt_6_7 (apply_adj (INC_CH_6_7 c) a s)
                     (next_stCnt (stCnt_6_7 s) (4 * STEPS_CH_6_7 c))) /\
  (exists a,
     (forall n, adj_channel a = Some n -> n ∈ [8; 9]%nat) /\
     calc_CH_8_TO_9 c s =
       set_stCnt_8_9 (apply_adj (INC_CH_8_9 c) a s)
                     (next_stCnt (stCnt_8_9 s) (4 * STEPS_CH_8_9 c))).
Proof.
  repeat split.
  - exists (segment_0_2 c (stCnt_0_2 s)). split.
    + apply segment_0_2_member.
    + apply calc_CH_0_TO_2_single.
  - exists (segment_3_5 c (stCnt_3_5 s)). split.
    + apply segment_3_5_member.
    + apply calc_CH_3_TO_5_single.
  - exists (segment_6_7 c (stCnt_6_7 s)). split.
    + apply segment_6_7_member.
    + apply calc_CH_6_TO_7_single.
  - exists (segment_8_9 c (stCnt_8_9 s)). split.
    + apply segment_8_9_member.
    + apply calc_CH_8_TO_9_single.
Qed.

(** * Bounds in every reachable state *)

(** The loop of [main] only ever makes the five calls: the globals after
    any number of passes are the result of a list of calls. *)
Lemma main_loop_calls c k m :
  exists fs,
    globals (Nat.iter k (main_loop_body c) m) = run c fs (globals m).
Proof.
  induction k as [|k [fs IH]]; [exists []; reflexivity|].
  rewrite Nat.iter_succ. unfold main_loop_body at 1.
  destruct (loop_calls c (intCnt (Nat.iter k (main_loop_body c) m))) as [cnt gs].
  exists (fs ++ gs). cbn [globals]. rewrite IH, run_app. reflexivity.
Qed.

(** C5: in every state reached from start-up by any sequence of envelope
    and modulator calls, every requested level is between 0 and its
    channel's resolution, the resolution fits the 8-bit cell, and no call
    moves a level by more than the increment (so no [+=] or [-=] wraps
    around). *)
Theorem req_within_resolution (fs : list call) (f : call) (n : nat) :
  (n < N_CH)%nat ->
  let s := run shipped fs (main_init shipped) in
  0 <= rd (req s) n <= rd (max s) n /\
  rd (max s) n < 256 /\
  -2 <= rd (req (exec shipped f s)) n - rd (req s) n <= 2.
Proof.
  intros Hn s. destruct (reachable_sys fs) as [He _]. fold s in He.
  pose proof (env_inv_req_bounds s n He Hn).
  pose proof (env_inv_chan s n He Hn).
  pose proof (exec_req_delta f s n He).
  repeat split; lia.
Qed.

Lemma req_within_resolution_witness :
  let s := run shipped [Calc_CH_0_TO_2; Calc_output_bits; Calc_CH_8_TO_9]
               (main_init shipped) in
  0 <= rd (req s) 9 <= rd (max s) 9 /\
  rd (max s) 9 < 256 /\
  -2 <= rd (req (exec shipped Calc_CH_8_TO_9 s)) 9 - rd (req s) 9 <= 2.
Proof.
  apply (req_within_resolution
           [Calc_CH_0_TO_2; Calc_output_bits; Calc_CH_8_TO_9] Calc_CH_8_TO_9 9).
  unfold N_CH. lia.
Defined.

(** C2: in every state reached from start-up, after one more
    [calc_output_bits] every integrator is at least 0 and below its
    channel's resolution; so it is after every pass of the loop of [main],
    whatever the counter's first value. *)
Theorem sum_below_max_after_step (fs : list call) (k : nat) (cnt : Z) (n : nat) :
  (n < N_CH)%nat ->
  let s := calc_output_bits (run shipped fs (main_init shipped)) in
  let m := Nat.iter (S k) (main_loop_body shipped)
                    {| intCnt := cnt; globals := main_init shipped |} in
  0 <= rd (sum s) n < rd (max s) n /\
  0 <= rd (sum (globals m)) n < rd (max (globals m)) n.
Proof.
  intros Hn s m. split.
  - destruct (calc_output_bits_sys _ (reachable_sys fs)) as [_ [_ Hs]].
    apply Hs. exact Hn.
  - subst m.
    destruct (main_loop_calls shipped (S k)
                {| intCnt := cnt; globals := main_init shipped |}) as [gs ->].
    cbn [globals]. destruct (reachable_sys gs) as [_ [_ Hs]].
    apply Hs. exact Hn.
Qed.

Lemma sum_below_max_after_step_witness :
  let s := calc_output_bits (run shipped [Calc_CH_6_TO_7] (main_init shipped)) in
  0 <= rd (sum s) 7 < rd (max s) 7.
Proof.
  apply (sum_below_max_after_step [Calc_CH_6_TO_7] 0 0 7). unfold N_CH. lia.
Defined.

(** * The loop of main: cadence of the envelopes *)

Section Cadence.

Variable c : config.
Hypothesis HK : 0 <= LOOP_SPEED c <= 14.

Abbreviation period := (envelope_period c).

Lemma period_bounds : 1 <= period <= 16384.
Proof.
  unfold envelope_period. split.
  - pose proof (Z.pow_pos_nonneg 2 (LOOP_SPEED c)). lia.
  - change 16384 with (2 ^ 14). apply Z.pow_le_mono_r; lia.
Qed.

Lemma land_pow2_small x : 0 <= x < period -> Z.land x period = 0.
Proof.
  intros Hx. apply Z.bits_inj'. intros n Hn.
  rewrite Z.land_spec, Z.bits_0. unfold envelope_period in *.
  rewrite Z.pow2_bits_eqb by lia.
  destruct (Z.eqb_spec (LOOP_SPEED c) n) as [<- | Hne].
  - rewrite <- (Z.mod_small x (2 ^ LOOP_SPEED c)) by exact Hx.
    rewrite Z.mod_pow2_bits_high by lia. reflexivity.
  - apply andb_false_r.
Qed.

(** The test fires exactly when the incremented counter reaches [2^K]. *)
Lemma envelope_due_spec cnt :
  0 <= cnt < period ->
  envelope_due c (sint16 (cnt + 1)) = (cnt + 1 =? period).
Proof.
  intros Hc. pose proof period_bounds as Hp.
  rewrite sint16_small by lia. unfold envelope_due.
  rewrite Z.shiftl_1_l. fold (envelope_period c).
  destruct (Z.eqb_spec (cnt + 1) period) as [-> | Hne].
  - rewrite Z.land_diag. destruct (Z.eqb_spec period 0); [lia | reflexivity].
  - rewrite land_pow2_small by lia. reflexivity.
Qed.

Lemma loop_calls_counter cnt :
  0 <= cnt < period ->
  fst (loop_calls c cnt) = (cnt + 1) mod period.
Proof.
  intros Hc. pose proof period_bounds as Hp. unfold loop_calls.
  rewrite envelope_due_spec by exact Hc. rewrite sint16_small by lia.
  destruct (Z.eqb_spec (cnt + 1) period) as [-> | Hne]; cbn [fst].
  - rewrite Z_mod_same_full. reflexivity.
  - rewrite Z.mod_small by lia. reflexivity.
Qed.

Lemma intCnt_after_range k cnt :
  0 <= cnt < period -> 0 <= intCnt_after c k cnt < period.
Proof.
  revert cnt. induction k as [|k IH]; intros cnt Hc; [exact Hc|].
  cbn [intCnt_after]. apply IH. rewrite loop_calls_counter by exact Hc.
  apply Z.mod_pos_bound. pose proof period_bounds. lia.
Qed.

Lemma intCnt_after_mod k cnt :
  0 <= cnt < period ->
  intCnt_after c k cnt = (cnt + Z.of_nat k) mod period.
Proof.
  pose proof period_bounds as Hp.
  revert cnt. induction k as [|k IH]; intros cnt Hc.
  - cbn. rewrite Z.add_0_r, Z.mod_small by exact Hc. reflexivity.
  - cbn [intCnt_after]. rewrite IH, loop_calls_counter by
      (rewrite ?loop_calls_counter by exact Hc; try exact Hc;
       apply Z.mod_pos_bound; lia).
    rewrite Zplus_mod_idemp_l. f_equal. lia.
Qed.

Lemma envelope_trace_app j k cnt :
  envelope_trace c (j + k) cnt
  = envelope_trace c j cnt ++ envelope_trace c k (intCnt_after c j cnt).
Proof.
  revert cnt. induction j as [|j IH]; intros cnt; [reflexivity|].
  cbn [Nat.add envelope_trace intCnt_after app]. rewrite IH. reflexivity.
Qed.

Lemma envelope_trace_length k cnt : length (envelope_trace c k cnt) = k.
Proof.
  revert cnt. induction k as [|k IH]; intros cnt; [reflexivity|].
  cbn [envelope_trace length]. rewrite IH. reflexivity.
Qed.

(** While the counter climbs, no pass runs the envelopes. *)
Lemma envelope_trace_quiet k cnt :
  0 <= cnt -> cnt + Z.of_nat k < period ->
  envelope_trace c k cnt = replicate k false /\
  intCnt_after c k cnt = cnt + Z.of_nat k.
Proof.
  revert cnt. induction k as [|k IH]; intros cnt Hc Hk.
  - split; [reflexivity | cbn; lia].
  - cbn [envelope_trace intCnt_after replicate].
    rewrite envelope_due_spec, loop_calls_counter by lia.
    rewrite Z.mod_small by lia.
    destruct (IH (cnt + 1)) as [-> ->]; [lia | lia |].
    destruct (Z.eqb_spec (cnt + 1) period); [lia|]. split; [reflexivity | lia].
Qed.

Lemma count_bits_replicate_false k : count_bits true (replicate k false) = 0.
Proof. induction k as [|k IH]; [reflexivity|]. cbn. exact IH. Qed.

(** Any [2^K] consecutive passes contain exactly one envelope run. *)
Lemma envelope_trace_period cnt :
  0 <= cnt < period ->
  count_bits true (envelope_trace c (Z.to_nat period) cnt) = 1.
Proof.
  intros Hc.
  replace (Z.to_nat period)
    with (Z.to_nat (period - 1 - cnt) + (1 + Z.to_nat cnt))%nat by lia.
  rewrite envelope_trace_app.
  destruct (envelope_trace_quiet (Z.to_nat (period - 1 - cnt)) cnt) as [-> ->];
    [lia | lia |].
  rewrite Z2Nat.id by lia.
  replace (cnt + (period - 1 - cnt)) with (period - 1) by lia.
  cbn [Nat.add envelope_trace].
  rewrite envelope_due_spec, loop_calls_counter by lia.
  replace (period - 1 + 1) with period by lia.
  rewrite Z.eqb_refl, Z_mod_same_full.
  destruct (envelope_trace_quiet (Z.to_nat cnt) 0) as [-> _]; [lia | lia |].
  rewrite count_bits_app. cbn [count_bits Bool.eqb].
  rewrite !count_bits_replicate_false. reflexivity.
Qed.

End Cadence.

(** C6, as stated, fails: from a counter of 0, the first [2^(K+1)] = 128
    passes of the shipped loop run the envelopes twice, not once, and pass
    128 is one of them. *)
Lemma envelope_not_every_2K1_ticks :
  count_bits true
    (envelope_trace shipped (Z.to_nat (2 ^ (LOOP_SPEED shipped + 1))) 0) <> 1 /\
  envelope_trace shipped 128 0 !! 127%nat = Some true /\
  envelope_trace shipped 128 0 !! 63%nat = Some true.
Proof. repeat split; vm_compute; discriminate || reflexivity. Qed.

(** C6, amended: from a counter of 0 the loop runs the four envelope
    functions exactly once in every [2^K] consecutive passes
    ([K = LOOP_SPEED]): pass number [j + 1] runs them exactly when [j + 1]
    is a multiple of [2^K]; on those passes the incremented counter is
    [2^K] (so its low [K + 1] bits equal [2^K]) and it is reset to 0. *)
Theorem envelope_every_2K_ticks (c : config) (j : nat) :
  0 <= LOOP_SPEED c <= 14 ->
  let N := envelope_period c in
  count_bits true (drop j (envelope_trace c (j + Z.to_nat N) 0)) = 1 /\
  envelope_trace c (S j) 0 !! j = Some (Z.of_nat (S j) mod N =? 0) /\
  (envelope_trace c (S j) 0 !! j = Some true ->
   sint16 (intCnt_after c j 0 + 1) mod 2 ^ (LOOP_SPEED c + 1) = N /\
   intCnt_after c (S j) 0 = 0).
Proof.
  intros HK N. pose proof (period_bounds c HK) as HN. fold N in HN.
  assert (H0 : 0 <= 0 < N) by lia.
  pose proof (intCnt_after_range c HK j 0 H0) as Hr. fold N in Hr.
  pose proof (intCnt_after_mod c HK j 0 H0) as Hj. fold N in Hj.
  pose proof (intCnt_after_mod c HK (S j) 0 H0) as HSj. fold N in HSj.
  pose proof (envelope_due_spec c HK (intCnt_after c j 0) Hr) as Hd. fold N in Hd.
  assert (Hlk : envelope_trace c (S j) 0 !! j
                = Some (envelope_due c (sint16 (intCnt_after c j 0 + 1)))).
  { replace (S j) with (j + 1)%nat by lia. rewrite envelope_trace_app.
    rewrite lookup_app_r by (rewrite envelope_trace_length; lia).
    rewrite envelope_trace_length, Nat.sub_diag. reflexivity. }
  assert (Hmod : (intCnt_after c j 0 + 1 =? N) = (Z.of_nat (S j) mod N =? 0)).
  { rewrite Hj. replace (Z.of_nat (S j)) with (0 + Z.of_nat j + 1) by lia.
    rewrite <- (Zplus_mod_idemp_l (0 + Z.of_nat j) 1 N).
    pose proof (Z.mod_pos_bound (0 + Z.of_nat j) N ltac:(lia)) as Hb.
    destruct (Z.eqb_spec ((0 + Z.of_nat j) mod N + 1) N) as [-> | Hne].
    - rewrite Z_mod_same_full. reflexivity.
    - rewrite (Z.mod_small ((0 + Z.of_nat j) mod N + 1) N) by lia.
      symmetry. apply Z.eqb_neq. lia. }
  split; [|split].
  - rewrite envelope_trace_app.
    rewrite <- (envelope_trace_length c j 0) at 1. rewrite drop_app_length.
    apply (envelope_trace_period c HK). exact Hr.
  - rewrite Hlk, Hd, Hmod. reflexivity.
  - rewrite Hlk, Hd. intros [= Hdue]. pose proof Hdue as Hz.
    rewrite Hmod in Hz. apply Z.eqb_eq in Hdue, Hz.
    rewrite sint16_small by lia. rewrite Hdue. split.
    + rewrite Z.pow_add_r by lia. fold (envelope_period c). fold N.
      apply Z.mod_small. lia.
    + rewrite HSj. exact Hz.
Qed.

Lemma envelope_every_2K_ticks_witness :
  count_bits true
    (drop 5 (envelope_trace shipped (5 + Z.to_nat (envelope_period shipped)) 0)) = 1.
Proof. apply (envelope_every_2K_ticks shipped 5). cbn. lia. Defined.

(** * The loop of main: order of the calls *)

(** The envelope functions write [req] and their own counter only. *)
Lemma exec_envelope_frame c f s :
  f <> Calc_output_bits ->
  sum (exec c f s) = sum s /\ max (exec c f s) = max s /\
  outBits (exec c f s) = outBits s.
Proof.
  intros Hf. destruct f; cbn [exec]; try contradiction.
  - rewrite calc_CH_0_TO_2_single, apply_adj_fields. repeat split.
  - rewrite calc_CH_3_TO_5_single, apply_adj_fields. repeat split.
  - rewrite calc_CH_6_TO_7_single, apply_adj_fields. repeat split.
  - rewrite calc_CH_8_TO_9_single, apply_adj_fields. repeat split.
Qed.

Lemma run_envelope_frame c es s :
  Calc_output_bits ∉ es ->
  sum (run c es s) = sum s /\ max (run c es s) = max s /\
  outBits (run c es s) = outBits s.
Proof.
  revert s. induction es as [|f es IH]; intros s Hn; [repeat split|].
  apply not_elem_of_cons in Hn as [Hf Hn]. rewrite run_cons.
  destruct (IH (exec c f s) Hn) as (-> & -> & ->).
  apply exec_envelope_frame. congruence.
Qed.

(** C7: every pass of the loop makes its calls in this order: the four
    envelope functions (on the passes where the test fires, none
    otherwise), then [calc_output_bits], which is called on every pass,
    once and last.  So the bit and the integrator that the pass computes
    for channel [n] come from the levels as the envelope functions of this
    same pass left them. *)
Theorem envelope_before_modulation (c : config) (m : mstate) (n : nat) :
  length (sum (globals m)) = N_CH -> (n < N_CH)%nat ->
  exists es,
    snd (loop_calls c (intCnt m)) = es ++ [Calc_output_bits] /\
    (Calc_output_bits ∉ es) /\
    es = (if envelope_due c (sint16 (intCnt m + 1))
          then [Calc_CH_0_TO_2; Calc_CH_3_TO_5; Calc_CH_6_TO_7; Calc_CH_8_TO_9]
          else []) /\
    let g := run c es (globals m) in
    globals (main_loop_body c m) = calc_output_bits g /\
    rd (sum (globals (main_loop_body c m))) n
      = fst (modulate (rd (max g) n) (rd (req g) n) (rd (sum (globals m)) n)) /\
    out_bit n (globals (main_loop_body c m))
      = snd (modulate (rd (max g) n) (rd (req g) n) (rd (sum (globals m)) n)).
Proof.
  intros Hlen Hn.
  exists (if envelope_due c (sint16 (intCnt m + 1))
          then [Calc_CH_0_TO_2; Calc_CH_3_TO_5; Calc_CH_6_TO_7; Calc_CH_8_TO_9]
          else []).
  assert (Hnot : Calc_output_bits
                 ∉ (if envelope_due c (sint16 (intCnt m + 1))
                    then [Calc_CH_0_TO_2; Calc_CH_3_TO_5; Calc_CH_6_TO_7;
                          Calc_CH_8_TO_9]
                    else [])).
  { destruct (envelope_due c (sint16 (intCnt m + 1)));
      rewrite ?not_elem_of_cons; repeat split; try discriminate;
      apply not_elem_of_nil. }
  split; [|split; [exact Hnot | split; [reflexivity|]]].
  - unfold loop_calls. destruct (envelope_due c (sint16 (intCnt m + 1))); reflexivity.
  - cbv zeta.
    set (es := if envelope_due c (sint16 (intCnt m + 1))
               then [Calc_CH_0_TO_2; Calc_CH_3_TO_5; Calc_CH_6_TO_7; Calc_CH_8_TO_9]
               else []) in *.
    assert (Hg : globals (main_loop_body c m) = calc_output_bits (run c es (globals m))).
    { unfold main_loop_body, loop_calls. subst es.
      destruct (envelope_due c (sint16 (intCnt m + 1))); reflexivity. }
    destruct (run_envelope_frame c es (globals m) Hnot) as (Hs & _ & _).
    destruct (calc_output_bits_channel (run c es (globals m)) n) as [Hsum Hbit];
      [congruence | exact Hn |].
    unfold channel_step in *. rewrite Hs in Hsum, Hbit.
    rewrite Hg. repeat split; assumption.
Qed.

Lemma envelope_before_modulation_witness :
  exists es,
    snd (loop_calls shipped 63) = es ++ [Calc_output_bits] /\
    (Calc_output_bits ∉ es) /\
    es = (if envelope_due shipped (sint16 (63 + 1))
          then [Calc_CH_0_TO_2; Calc_CH_3_TO_5; Calc_CH_6_TO_7; Calc_CH_8_TO_9]
          else []) /\
    let g := run shipped es (main_init shipped) in
    let m := {| intCnt := 63; globals := main_init shipped |} in
    globals (main_loop_body shipped m) = calc_output_bits g /\
    rd (sum (globals (main_loop_body shipped m))) 1
      = fst (modulate (rd (max g) 1) (rd (req g) 1) (rd (sum (main_init shipped)) 1)) /\
    out_bit 1 (globals (main_loop_body shipped m))
      = snd (modulate (rd (max g) 1) (rd (req g) 1) (rd (sum (main_init shipped)) 1)).
Proof.
  apply (envelope_before_modulation
           shipped {| intCnt := 63; globals := main_init shipped |} 1).
  - reflexivity.
  - unfold N_CH. lia.
Defined.

(** On the pass where the envelopes run, the new level is what the
    modulator integrates: channel 1 goes from level 0 to 2 and its
    integrator from 0 to 2 in the same pass. *)
Example envelope_visible_same_pass :
  let m := main_loop_body shipped {| intCnt := 63; globals := main_init shipped |} in
  rd (req (main_init shipped)) 1 = 0 /\
  rd (req (globals m)) 1 = 2 /\ rd (sum (globals m)) 1 = 2 /\ intCnt m = 0.
Proof. vm_compute. repeat split. Qed.

(** * Start-up *)

(** C9, as stated, fails: with a resolution of zero, or with a step count
    that does not divide the resolution, start-up is not refused; all the
    cells are initialised and the loop is entered. *)
Lemma startup_never_refused :
  (~ config_valid zero_resolution_cfg /\
   main_start zero_resolution_cfg <> Refused /\
   max (main_init zero_resolution_cfg)
     = [200; 200; 200; 200; 200; 200; 0; 0; 150; 150]) /\
  (~ config_valid uneven_steps_cfg /\
   main_start uneven_steps_cfg <> Refused /\
   INC_CH_8_9 uneven_steps_cfg * STEPS_CH_8_9 uneven_steps_cfg
     <> MAX_CH_8_9 uneven_steps_cfg).
Proof.
  split; (split; [|split]); try discriminate; try reflexivity.
  - intros ((_ & _ & H & _) & _). cbn in H. lia.
  - intros (_ & _ & (_ & _ & _ & H)). vm_compute in H. discriminate.
Qed.

(** C9, amended: start-up checks nothing.  For every configuration, valid
    or not, [main] initialises all ten resolutions and all ten requested
    levels from the macros, leaves the integrators at 0 and enters its
    loop; the shipped configuration is a valid one. *)
Theorem startup_unconditional (c : config) :
  main_start c = Running (main_init c) /\
  max (main_init c)
    = [uint16 (MAX_CH_0_2 c); uint16 (MAX_CH_0_2 c); uint16 (MAX_CH_0_2 c);
       uint16 (MAX_CH_3_5 c); uint16 (MAX_CH_3_5 c); uint16 (MAX_CH_3_5 c);
       uint16 (MAX_CH_6_7 c); uint16 (MAX_CH_6_7 c);
       uint16 (MAX_CH_8_9 c); uint16 (MAX_CH_8_9 c)] /\
  req (main_init c)
    = [uint8 (MAX_CH_0_2 c); 0; 0;
       0; uint8 (MAX_CH_3_5 c); uint8 (MAX_CH_3_5 c);
       0; 0;
       uint8 (MAX_CH_8_9 c); uint8 (MAX_CH_8_9 c)] /\
  sum (main_init c) = replicate N_CH 0 /\
  config_valid shipped.
Proof.
  repeat split; cbn; lia.
Qed.

(** * More on the modulators: division, spread, extremes *)

Section Division.

(** "Synthetic division": after [k] clocks the integrator holds the
    remainder and the 0 bits count the quotient of [sm + k * rq] by [mx]. *)
Lemma ds_run_quotient mx rq k sm :
  0 <= rq <= mx -> 0 <= sm < mx -> mx + rq <= 65536 ->
  fst (ds_run mx rq k sm) = (sm + Z.of_nat k * rq) mod mx /\
  count_bits false (snd (ds_run mx rq k sm)) = (sm + Z.of_nat k * rq) / mx.
Proof.
  intros Hr Hs Hw.
  destruct (ds_run_balance mx rq k sm Hr Hs Hw) as [Hb He].
  split.
  - apply (Z.mod_unique_pos _ _ (count_bits false (snd (ds_run mx rq k sm)))).
    + exact Hb.
    + lia.
  - apply (Z.div_unique_pos _ _ _ (fst (ds_run mx rq k sm))).
    + exact Hb.
    + lia.
Qed.

Lemma count_bits_true_false (bs : list bool) :
  count_bits true bs = Z.of_nat (length bs) - count_bits false bs.
Proof. pose proof (count_bits_total bs). lia. Qed.

Lemma out_stream_length (n : nat) k s : length (snd (out_stream n k s)) = k.
Proof.
  revert s. induction k as [|k IH]; intros s; [reflexivity|].
  cbn [out_stream]. specialize (IH (calc_output_bits s)).
  destruct (out_stream n k (calc_output_bits s)) as [s2 bs].
  cbn [snd length] in *. congruence.
Qed.

(** The stream splits like the calls do. *)
Lemma out_stream_app (n : nat) j k s :
  out_stream n (j + k) s =
    (fst (out_stream n k (fst (out_stream n j s))),
     snd (out_stream n j s) ++ snd (out_stream n k (fst (out_stream n j s)))).
Proof.
  revert s. induction j as [|j IH]; intros s.
  - cbn. destruct (out_stream n k s); reflexivity.
  - cbn [Nat.add out_stream]. rewrite IH.
    destruct (out_stream n j (calc_output_bits s)) as [s2 bs]. reflexivity.
Qed.

(** [k] calls keep the arrays' sizes, [max], [req] and the counters. *)
Lemma out_stream_frame (n : nat) k s :
  max (fst (out_stream n k s)) = max s /\
  req (fst (out_stream n k s)) = req s /\
  length (sum (fst (out_stream n k s))) = length (sum s).
Proof.
  revert s. induction k as [|k IH]; intros s; [repeat split|].
  cbn [out_stream]. specialize (IH (calc_output_bits s)).
  destruct (out_stream n k (calc_output_bits s)) as [s2 bs].
  cbn [fst] in *.
  destruct (calc_output_bits_frame s) as (Hm & Hr & _ & _ & _ & _ & Hl).
  destruct IH as (I1 & I2 & I3). repeat split; congruence.
Qed.

End Division.

Section DivisionSystem.

(** The closed form for channel [n] of the running system. *)
Lemma out_stream_quotient (s : state) (n k : nat) :
  length (sum s) = N_CH -> (n < N_CH)%nat ->
  0 <= rd (req s) n <= rd (max s) n ->
  0 <= rd (sum s) n < rd (max s) n ->
  rd (max s) n + rd (req s) n <= 65536 ->
  rd (sum (fst (out_stream n k s))) n
    = (rd (sum s) n + Z.of_nat k * rd (req s) n) mod rd (max s) n /\
  count_bits false (snd (out_stream n k s))
    = (rd (sum s) n + Z.of_nat k * rd (req s) n) / rd (max s) n.
Proof.
  intros Hlen Hn Hr Hs Hw.
  destruct (out_stream_ds_run n k s Hlen Hn) as [-> ->].
  apply ds_run_quotient; assumption.
Qed.

Lemma out_stream_window (n : nat) j k s :
  drop j (snd (out_stream n (j + k) s))
  = snd (out_stream n k (fst (out_stream n j s))).
Proof.
  rewrite out_stream_app. cbn [snd].
  rewrite <- (out_stream_length n j s) at 1. apply drop_app_length.
Qed.

Lemma count_false_zero_all_true (bs : list bool) :
  count_bits false bs = 0 -> bs = replicate (length bs) true.
Proof.
  induction bs as [|b bs IH]; [reflexivity|].
  cbn [count_bits length replicate]. intros H.
  assert (Hnn : 0 <= count_bits false bs).
  { clear. induction bs as [|b bs IH]; cbn [count_bits]; [lia|].
    destruct (Bool.eqb b false); lia. }
  destruct b; cbn [Bool.eqb] in H; [|lia]. rewrite <- IH by lia. reflexivity.
Qed.

Lemma count_true_zero_all_false (bs : list bool) :
  count_bits true bs = 0 -> bs = replicate (length bs) false.
Proof.
  induction bs as [|b bs IH]; [reflexivity|].
  cbn [count_bits length replicate]. intros H.
  assert (Hnn : 0 <= count_bits true bs).
  { clear. induction bs as [|b bs IH]; cbn [count_bits]; [lia|].
    destruct (Bool.eqb b true); lia. }
  destruct b; cbn [Bool.eqb] in H; [lia|]. rewrite <- IH by lia. reflexivity.
Qed.

End DivisionSystem.

(** X1: the modulator divides.  For a channel whose level is within its
    resolution and whose integrator is below it, after [k] calls of
    [calc_output_bits] the integrator is the remainder of
    [sum + k * req] by [max], the number of 0 bits emitted is the quotient,
    and the other bits are 1. *)
Theorem modulator_quotient_remainder (s : state) (n k : nat) :
  length (sum s) = N_CH -> (n < N_CH)%nat ->
  0 <= rd (req s) n <= rd (max s) n ->
  0 <= rd (sum s) n < rd (max s) n ->
  rd (max s) n + rd (req s) n <= 65536 ->
  let t := rd (sum s) n + Z.of_nat k * rd (req s) n in
  rd (sum (fst (out_stream n k s))) n = t mod rd (max s) n /\
  count_bits false (snd (out_stream n k s)) = t / rd (max s) n /\
  count_bits true (snd (out_stream n k s)) = Z.of_nat k - t / rd (max s) n.
Proof.
  intros Hlen Hn Hr Hs Hw t.
  destruct (out_stream_quotient s n k Hlen Hn Hr Hs Hw) as [Hm Hq].
  rewrite count_bits_true_false, out_stream_length, Hq, Hm.
  repeat split; reflexivity.
Qed.

Lemma modulator_quotient_remainder_witness :
  let t := rd (sum quarter_state) 4 + Z.of_nat 10 * rd (req quarter_state) 4 in
  rd (sum (fst (out_stream 4 10 quarter_state))) 4 = t mod rd (max quarter_state) 4 /\
  count_bits false (snd (out_stream 4 10 quarter_state)) = t / rd (max quarter_state) 4 /\
  count_bits true (snd (out_stream 4 10 quarter_state))
    = Z.of_nat 10 - t / rd (max quarter_state) 4.
Proof.
  apply (modulator_quotient_remainder quarter_state 4 10);
    [reflexivity | unfold N_CH; lia | cbn; lia | cbn; lia | cbn; lia].
Defined.

(** X2: the duty cycle is never off by a whole bit.  In any window of [k]
    consecutive calls, wherever it starts, the number [z] of 0 bits of a
    channel is the integer quotient of [k * req] by [max] or one more, and
    [max * z] differs from [k * req] by less than [max]. *)
Theorem modulator_window_error (s : state) (n j k : nat) :
  length (sum s) = N_CH -> (n < N_CH)%nat ->
  0 <= rd (req s) n <= rd (max s) n ->
  0 <= rd (sum s) n < rd (max s) n ->
  rd (max s) n + rd (req s) n <= 65536 ->
  let z := count_bits false (drop j (snd (out_stream n (j + k) s))) in
  let kr := Z.of_nat k * rd (req s) n in
  kr / rd (max s) n <= z <= kr / rd (max s) n + 1 /\
  - rd (max s) n < rd (max s) n * z - kr < rd (max s) n.
Proof.
  intros Hlen Hn Hr Hs Hw z kr. subst z. rewrite out_stream_window.
  destruct (out_stream_frame n j s) as (Hm & Hq & Hl).
  destruct (out_stream_quotient s n j Hlen Hn Hr Hs Hw) as [Hsj _].
  set (sj := fst (out_stream n j s)) in *.
  assert (Hmx : 0 < rd (max s) n) by lia.
  assert (Hb : 0 <= rd (sum sj) n < rd (max s) n).
  { rewrite Hsj. apply Z.mod_pos_bound. exact Hmx. }
  destruct (out_stream_quotient sj n k) as [_ Hz];
    rewrite ?Hm, ?Hq; try assumption; try congruence.
  rewrite Hz, Hm, Hq. fold kr.
  set (a := rd (sum sj) n) in *. set (mx := rd (max s) n) in *.
  assert (H1 : kr / mx <= (a + kr) / mx) by (apply Z.div_le_mono; lia).
  assert (H2 : (a + kr) / mx <= (kr + 1 * mx) / mx) by (apply Z.div_le_mono; lia).
  rewrite Z.div_add in H2 by lia.
  pose proof (Z.mul_div_le (a + kr) mx Hmx).
  pose proof (Z.mul_succ_div_gt (a + kr) mx Hmx).
  repeat split; lia.
Qed.

Lemma modulator_window_error_witness :
  let z := count_bits false (drop 3 (snd (out_stream 4 (3 + 10) quarter_state))) in
  let kr := Z.of_nat 10 * rd (req quarter_state) 4 in
  kr / rd (max quarter_state) 4 <= z <= kr / rd (max quarter_state) 4 + 1 /\
  - rd (max quarter_state) 4 < rd (max quarter_state) 4 * z - kr
    < rd (max quarter_state) 4.
Proof.
  apply (modulator_window_error quarter_state 4 3 10);
    [reflexivity | unfold N_CH; lia | cbn; lia | cbn; lia | cbn; lia].
Defined.

(** X3: a higher level never gives more 1 bits.  Two runs of the same
    channel from the same integrator, with levels [r1 <= r2]: over any
    number of calls the run at [r2] emits at most as many 1 bits (and at
    least as many 0 bits) as the run at [r1]. *)
Theorem modulator_monotone (s1 s2 : state) (n k : nat) :
  length (sum s1) = N_CH -> length (sum s2) = N_CH -> (n < N_CH)%nat ->
  rd (max s2) n = rd (max s1) n -> rd (sum s2) n = rd (sum s1) n ->
  0 <= rd (req s1) n <= rd (req s2) n -> rd (req s2) n <= rd (max s1) n ->
  0 <= rd (sum s1) n < rd (max s1) n ->
  rd (max s1) n + rd (req s2) n <= 65536 ->
  count_bits true (snd (out_stream n k s2))
    <= count_bits true (snd (out_stream n k s1)) /\
  count_bits false (snd (out_stream n k s1))
    <= count_bits false (snd (out_stream n k s2)).
Proof.
  intros Hl1 Hl2 Hn Hm Hs Hr Hr2 Ha Hw.
  destruct (out_stream_quotient s1 n k) as [_ H1]; try assumption; try lia.
  destruct (out_stream_quotient s2 n k) as [_ H2];
    rewrite ?Hm, ?Hs; try assumption; try lia.
  rewrite !count_bits_true_false, !out_stream_length, H1, H2, Hm, Hs.
  assert (Hd : (rd (sum s1) n + Z.of_nat k * rd (req s1) n) / rd (max s1) n
               <= (rd (sum s1) n + Z.of_nat k * rd (req s2) n) / rd (max s1) n).
  { apply Z.div_le_mono; [lia | nia]. }
  lia.
Qed.

Lemma modulator_monotone_witness :
  count_bits true (snd (out_stream 6 30 quarter_state))
    <= count_bits true (snd (out_stream 6 30 (main_init shipped))) /\
  count_bits false (snd (out_stream 6 30 (main_init shipped)))
    <= count_bits false (snd (out_stream 6 30 quarter_state)).
Proof.
  apply (modulator_monotone (main_init shipped) quarter_state 6 30);
    try reflexivity; try (unfold N_CH; lia);
    vm_compute; repeat split; reflexivity || discriminate.
Defined.



(** X5: the two ends of the range.  A channel at level 0 emits only 1
    bits and a channel at its full level only 0 bits; in both cases the
    integrator never moves. *)
Theorem modulator_extremes (s : state) (n k : nat) :
  length (sum s) = N_CH -> (n < N_CH)%nat ->
  0 <= rd (sum s) n < rd (max s) n ->
  2 * rd (max s) n <= 65536 ->
  (rd (req s) n = 0 ->
   snd (out_stream n k s) = replicate k true /\
   rd (sum (fst (out_stream n k s))) n = rd (sum s) n) /\
  (rd (req s) n = rd (max s) n ->
   snd (out_stream n k s) = replicate k false /\
   rd (sum (fst (out_stream n k s))) n = rd (sum s) n).
Proof.
  intros Hlen Hn Hs Hw. split; intros Hr.
  - destruct (out_stream_quotient s n k) as [Hm Hq]; try assumption; try lia.
    rewrite Hr, Z.mul_0_r, Z.add_0_r in Hm, Hq.
    rewrite Z.div_small in Hq by exact Hs. rewrite Z.mod_small in Hm by exact Hs.
    split; [|exact Hm].
    rewrite <- (out_stream_length n k s) at 2.
    apply count_false_zero_all_true. exact Hq.
  - destruct (out_stream_quotient s n k) as [Hm Hq]; try assumption; try lia.
    rewrite Hr in Hm, Hq.
    rewrite Z.mod_add in Hm by lia. rewrite Z.div_add in Hq by lia.
    rewrite Z.div_small in Hq by exact Hs. rewrite Z.mod_small in Hm by exact Hs.
    split; [|exact Hm].
    rewrite <- (out_stream_length n k s) at 2.
    apply count_true_zero_all_false.
    rewrite count_bits_true_false, out_stream_length, Hq. lia.
Qed.

Lemma modulator_extremes_witness :
  (rd (req (main_init shipped)) 0 = 0 ->
   snd (out_stream 0 9 (main_init shipped)) = replicate 9 true /\
   rd (sum (fst (out_stream 0 9 (main_init shipped)))) 0
     = rd (sum (main_init shipped)) 0) /\
  (rd (req (main_init shipped)) 0 = rd (max (main_init shipped)) 0 ->
   snd (out_stream 0 9 (main_init shipped)) = replicate 9 false /\
   rd (sum (fst (out_stream 0 9 (main_init shipped)))) 0
     = rd (sum (main_init shipped)) 0).
Proof.
  apply (modulator_extremes (main_init shipped) 0 9);
    [reflexivity | unfold N_CH; lia
    | vm_compute; repeat split; reflexivity || discriminate
    | vm_compute; discriminate].
Defined.

Section ZeroResolution.

Lemma modulate_zero_max rq sm :
  modulate 0 rq sm = (uint16 (sm + rq), false).
Proof.
  unfold modulate.
  pose proof (Z.mod_pos_bound (sm + rq) 65536 ltac:(lia)) as Hb.
  fold (uint16 (sm + rq)) in Hb.
  destruct (Z.ltb_spec (uint16 (sm + rq)) 0); [lia|].
  rewrite Z.sub_0_r. rewrite (uint16_small (uint16 (sm + rq))) by exact Hb.
  reflexivity.
Qed.

Lemma ds_run_zero_max rq k sm :
  0 <= sm < 65536 ->
  snd (ds_run 0 rq k sm) = replicate k false /\
  fst (ds_run 0 rq k sm) = uint16 (sm + Z.of_nat k * rq).
Proof.
  revert sm. induction k as [|k IH]; intros sm Hs.
  - cbn. rewrite Z.add_0_r, uint16_small by exact Hs. split; reflexivity.
  - cbn [ds_run]. rewrite modulate_zero_max.
    destruct (IH (uint16 (sm + rq))) as [Hb Hf].
    { apply Z.mod_pos_bound. lia. }
    destruct (ds_run 0 rq k (uint16 (sm + rq))) as [sm2 bs].
    cbn [fst snd replicate] in *. split; [congruence|].
    rewrite Hf. unfold uint16. rewrite Zplus_mod_idemp_l. f_equal. lia.
Qed.

End ZeroResolution.

(** X6: a channel of resolution 0 is stuck.  It emits only 0 bits, and its
    integrator just adds the level up modulo [2^16]. *)
Theorem modulator_zero_resolution (s : state) (n k : nat) :
  length (sum s) = N_CH -> (n < N_CH)%nat ->
  rd (max s) n = 0 -> 0 <= rd (sum s) n < 65536 ->
  snd (out_stream n k s) = replicate k false /\
  rd (sum (fst (out_stream n k s))) n
    = uint16 (rd (sum s) n + Z.of_nat k * rd (req s) n).
Proof.
  intros Hlen Hn Hm Hs.
  destruct (out_stream_ds_run n k s Hlen Hn) as [-> ->]. rewrite Hm.
  apply ds_run_zero_max. exact Hs.
Qed.

Lemma modulator_zero_resolution_witness :
  snd (out_stream 6 5 (main_init zero_resolution_cfg)) = replicate 5 false /\
  rd (sum (fst (out_stream 6 5 (main_init zero_resolution_cfg)))) 6
    = uint16 (rd (sum (main_init zero_resolution_cfg)) 6
              + Z.of_nat 5 * rd (req (main_init zero_resolution_cfg)) 6).
Proof.
  apply (modulator_zero_resolution (main_init zero_resolution_cfg) 6 5);
    [reflexivity | unfold N_CH; lia | reflexivity
    | vm_compute; split; reflexivity || discriminate].
Defined.

(** * The watchdog interrupt *)

Section Ports.

Lemma uint8_bits z (i : Z) :
  0 <= i -> Z.testbit (uint8 z) i = (i <? 8) && Z.testbit z i.
Proof.
  intros Hi. unfold uint8. change 256 with (2 ^ 8).
  destruct (Z.ltb_spec i 8).
  - rewrite Z.mod_pow2_bits_low by lia. reflexivity.
  - rewrite Z.mod_pow2_bits_high by lia. reflexivity.
Qed.

Lemma uint8_range z : 0 <= uint8 z < 256.
Proof. apply Z.mod_pos_bound. lia. Qed.

End Ports.

(** X7: which channel drives which pin.  For [i < 8], bit [i] of the
    value written to P1OUT is the bit of channel [i] exclusive-or bit [i]
    of the mask [P1_COMM_ANOD], and bit [i] of the value written to P2OUT
    is the bit of channel [i + 2] exclusive-or bit [i] of [P2_COMM_ANOD];
    both values fit 8 bits.  With the shipped masks: channels 0 to 5
    inverted on P1.0 to P1.5, channels 6 and 7 as they are on P1.6 and
    P1.7, channels 8 and 9 as they are on P2.6 and P2.7. *)
Theorem watchdog_pin_map (c : config) (s : state) (i : nat) :
  (i < 8)%nat ->
  Z.testbit (fst (Watchdog_Timer c s)) (Z.of_nat i)
    = xorb (out_bit i s) (Z.testbit (P1_COMM_ANOD c) (Z.of_nat i)) /\
  Z.testbit (snd (Watchdog_Timer c s)) (Z.of_nat i)
    = xorb (out_bit (i + 2) s) (Z.testbit (P2_COMM_ANOD c) (Z.of_nat i)) /\
  0 <= fst (Watchdog_Timer c s) < 256 /\
  0 <= snd (Watchdog_Timer c s) < 256 /\
  Z.testbit (P1_COMM_ANOD shipped) (Z.of_nat i) = (i <? 6)%nat /\
  Z.testbit (P2_COMM_ANOD shipped) (Z.of_nat i) = false.
Proof.
  intros Hi. unfold Watchdog_Timer, out_bit. cbn [fst snd].
  rewrite !uint8_bits, !Z.lxor_spec by lia.
  rewrite Z.shiftr_spec by lia.
  replace (Z.of_nat i <? 8) with true by (symmetry; apply Z.ltb_lt; lia).
  replace (Z.of_nat (i + 2)) with (Z.of_nat i + 2) by lia.
  split; [reflexivity|]. split; [reflexivity|].
  split; [apply uint8_range|]. split; [apply uint8_range|].
  split.
  - do 8 (destruct i as [|i]; [reflexivity|]). lia.
  - do 8 (destruct i as [|i]; [reflexivity|]). lia.
Qed.

Lemma watchdog_pin_map_witness :
  Z.testbit (fst (Watchdog_Timer shipped (calc_output_bits quarter_state))) (Z.of_nat 3)
    = xorb (out_bit 3 (calc_output_bits quarter_state))
           (Z.testbit (P1_COMM_ANOD shipped) (Z.of_nat 3)).
Proof.
  apply (watchdog_pin_map shipped (calc_output_bits quarter_state) 3). lia.
Defined.

(** X8: stale bits never reach the ports.  [calc_output_bits] leaves the
    bits of the previous step in the upper part of [outBits], but what the
    interrupt then writes to P1OUT and P2OUT does not depend on the old
    word at all. *)
Theorem watchdog_ignores_old_bits (c : config) (s : state) (o : Z) :
  length (sum s) = N_CH ->
  Watchdog_Timer c (calc_output_bits (set_outBits s o))
  = Watchdog_Timer c (calc_output_bits s).
Proof.
  intros Hlen. unfold Watchdog_Timer.
  generalize (calc_output_bits_channel s).
  generalize (calc_output_bits_channel (set_outBits s o)).
  unfold out_bit, channel_step. cbn [max req sum set_outBits].
  generalize (outBits (calc_output_bits (set_outBits s o))).
  generalize (outBits (calc_output_bits s)).
  intros w w' H2 H1.
  assert (Hbit : forall i, 0 <= i < 10 -> Z.testbit w' i = Z.testbit w i).
  { intros i Hi. rewrite <- (Z2Nat.id i) by lia.
    destruct (H1 (Z.to_nat i)) as [_ ->]; [exact Hlen | unfold N_CH; lia |].
    destruct (H2 (Z.to_nat i)) as [_ ->]; [exact Hlen | unfold N_CH; lia |].
    reflexivity. }
  clear H1 H2.
  assert (E1 : uint8 (Z.lxor w' (P1_COMM_ANOD c)) = uint8 (Z.lxor w (P1_COMM_ANOD c))).
  { apply Z.bits_inj'. intros i Hi. rewrite !uint8_bits, !Z.lxor_spec by lia.
    destruct (Z.ltb_spec i 8) as [Hlt | Hge]; [|reflexivity].
    rewrite Hbit by lia. reflexivity. }
  assert (E2 : uint8 (Z.lxor (Z.shiftr w' 2) (P2_COMM_ANOD c))
               = uint8 (Z.lxor (Z.shiftr w 2) (P2_COMM_ANOD c))).
  { apply Z.bits_inj'. intros i Hi.
    rewrite !uint8_bits, !Z.lxor_spec, !Z.shiftr_spec by lia.
    destruct (Z.ltb_spec i 8) as [Hlt | Hge]; [|reflexivity].
    rewrite Hbit by lia. reflexivity. }
  rewrite E1, E2. reflexivity.
Qed.

Lemma watchdog_ignores_old_bits_witness :
  Watchdog_Timer shipped (calc_output_bits (set_outBits quarter_state 65535))
  = Watchdog_Timer shipped (calc_output_bits quarter_state).
Proof. apply (watchdog_ignores_old_bits shipped quarter_state 65535). reflexivity. Defined.

(** * Ownership and order of the envelope calls *)

Section Ownership.

Ltac projections :=
  cbn [max req sum outBits stCnt_0_2 stCnt_3_5 stCnt_6_7 stCnt_8_9
       set_max set_req set_sum set_outBits
       set_stCnt_0_2 set_stCnt_3_5 set_stCnt_6_7 set_stCnt_8_9].

Lemma adj_req_length inc a (r : list Z) : length (adj_req inc a r) = length r.
Proof. destruct a; cbn [adj_req]; rewrite ?length_insert; reflexivity. Qed.

Lemma adj_req_other inc a (r : list Z) (n : nat) :
  adj_channel a <> Some n -> rd (adj_req inc a r) n = rd r n.
Proof.
  destruct a as [|m|m]; cbn [adj_req adj_channel]; intros Hn;
    [reflexivity | |]; apply rd_insert_ne; congruence.
Qed.

(** Adjustments of different channels can be swapped. *)
Lemma adj_req_comm i j a b (r : list Z) :
  (forall n m, adj_channel a = Some n -> adj_channel b = Some m -> n <> m) ->
  adj_req i a (adj_req j b r) = adj_req j b (adj_req i a r).
Proof.
  intros Hd.
  destruct a as [|n|n], b as [|m|m]; cbn [adj_req]; try reflexivity;
    assert (Hne : n <> m) by (apply Hd; reflexivity);
    rewrite !rd_insert_ne by congruence;
    apply list_insert_insert_ne; exact Hne.
Qed.

Lemma group_disjoint (l k : list nat) (n m : nat) :
  n ∈ l -> m ∈ k -> (forall x, x ∈ l -> x ∈ k -> False) -> n <> m.
Proof. intros Hn Hm Hd ->. exact (Hd m Hn Hm). Qed.

(** Every envelope call is: one adjustment of [req], one counter update. *)
Lemma segment_member c f p n :
  match f with
  | Calc_CH_0_TO_2 => adj_channel (segment_0_2 c p) = Some n
  | Calc_CH_3_TO_5 => adj_channel (segment_3_5 c p) = Some n
  | Calc_CH_6_TO_7 => adj_channel (segment_6_7 c p) = Some n
  | Calc_CH_8_TO_9 => adj_channel (segment_8_9 c p) = Some n
  | Calc_output_bits => False
  end -> n ∈ group_of f.
Proof.
  destruct f; cbn [group_of].
  - apply segment_0_2_member.
  - apply segment_3_5_member.
  - apply segment_6_7_member.
  - apply segment_8_9_member.
  - contradiction.
Qed.

Lemma exec_envelope_single c f s :
  f <> Calc_output_bits ->
  exists a v,
    (forall n, adj_channel a = Some n -> n ∈ group_of f) /\
    req (exec c f s) = adj_req v a (req s) /\
    max (exec c f s) = max s /\ sum (exec c f s) = sum s /\
    outBits (exec c f s) = outBits s /\
    (forall g, g <> f -> stCnt_of g (exec c f s) = stCnt_of g s).
Proof.
  intros Hf. destruct f; try contradiction; cbn [exec group_of].
  - exists (segment_0_2 c (stCnt_0_2 s)), (INC_CH_0_2 c).
    rewrite calc_CH_0_TO_2_single, apply_adj_fields. projections.
    split; [apply segment_0_2_member|]. repeat split.
    intros g Hg. destruct g; try reflexivity. contradiction.
  - exists (segment_3_5 c (stCnt_3_5 s)), (INC_CH_3_5 c).
    rewrite calc_CH_3_TO_5_single, apply_adj_fields. projections.
    split; [apply segment_3_5_member|]. repeat split.
    intros g Hg. destruct g; try reflexivity. contradiction.
  - exists (segment_6_7 c (stCnt_6_7 s)), (INC_CH_6_7 c).
    rewrite calc_CH_6_TO_7_single, apply_adj_fields. projections.
    split; [apply segment_6_7_member|]. repeat split.
    intros g Hg. destruct g; try reflexivity. contradiction.
  - exists (segment_8_9 c (stCnt_8_9 s)), (INC_CH_8_9 c).
    rewrite calc_CH_8_TO_9_single, apply_adj_fields. projections.
    split; [apply segment_8_9_member|]. repeat split.
    intros g Hg. destruct g; try reflexivity. contradiction.
Qed.

End Ownership.

(** X10: who writes what.  A call never writes [max] and never resizes an
    array; it leaves alone the level of every channel outside its group and
    the counter of every other call; and the envelope calls leave [sum] and
    [outBits] alone ([calc_output_bits] has an empty group: it never writes
    a level). *)
Theorem call_write_set (c : config) (f : call) (s : state) :
  max (exec c f s) = max s /\
  length (req (exec c f s)) = length (req s) /\
  length (sum (exec c f s)) = length (sum s) /\
  (forall n : nat, n ∉ group_of f -> rd (req (exec c f s)) n = rd (req s) n) /\
  (forall g, g <> f -> stCnt_of g (exec c f s) = stCnt_of g s) /\
  (f <> Calc_output_bits ->
   sum (exec c f s) = sum s /\ outBits (exec c f s) = outBits s).
Proof.
  assert (Hd : f = Calc_output_bits \/ f <> Calc_output_bits)
    by (destruct f; (left; reflexivity) || (right; discriminate)).
  destruct Hd as [-> | Hf].
  - cbn [exec].
    destruct (calc_output_bits_frame s) as (Hm & Hq & H0 & H3 & H6 & H8 & Hl).
    rewrite Hm, Hq, Hl. repeat split; try contradiction.
    intros g Hg. destruct g; cbn [stCnt_of]; congruence.
  - destruct (exec_envelope_single c f s Hf) as (a & v & Ha & Hq & Hm & Hs & Ho & Hc).
    rewrite Hm, Hq, Hs, Ho, adj_req_length. repeat split; try assumption.
    intros n Hn. apply adj_req_other. intros Hch. apply Hn, Ha, Hch.
Qed.

Section Commute.

Ltac envelope_forms :=
  cbn [exec];
  rewrite ?calc_CH_0_TO_2_single, ?calc_CH_3_TO_5_single,
          ?calc_CH_6_TO_7_single, ?calc_CH_8_TO_9_single;
  rewrite !apply_adj_fields;
  unfold set_req, set_stCnt_0_2, set_stCnt_3_5, set_stCnt_6_7, set_stCnt_8_9;
  cbn [max req sum outBits stCnt_0_2 stCnt_3_5 stCnt_6_7 stCnt_8_9].

Ltac other_group Ha Hb :=
  let n := fresh "n" in
  let m := fresh "m" in
  let Hn := fresh "Hn" in
  let Hm := fresh "Hm" in
  intros n m Hn Hm; apply Ha in Hn; apply Hb in Hm;
  apply list_elem_of_In in Hn; apply list_elem_of_In in Hm;
  cbn [In] in Hn, Hm; lia.

Lemma envelope_pair_commute c f g s :
  f <> Calc_output_bits -> g <> Calc_output_bits -> f <> g ->
  exec c f (exec c g s) = exec c g (exec c f s).
Proof.
  intros Hf Hg Hfg.
  pose proof (segment_0_2_member c) as M0.
  pose proof (segment_3_5_member c) as M3.
  pose proof (segment_6_7_member c) as M6.
  pose proof (segment_8_9_member c) as M8.
  destruct f, g; try contradiction; envelope_forms; f_equal;
    apply adj_req_comm.
  - other_group M0 M3.
  - other_group M0 M6.
  - other_group M0 M8.
  - other_group M3 M0.
  - other_group M3 M6.
  - other_group M3 M8.
  - other_group M6 M0.
  - other_group M6 M3.
  - other_group M6 M8.
  - other_group M8 M0.
  - other_group M8 M3.
  - other_group M8 M6.
Qed.

End Commute.

(** X9: the envelope calls can be made in any order.  For every
    configuration and every state, two envelope functions applied one after
    the other give the same state in either order. *)
Theorem envelope_calls_commute (c : config) (f g : call) (s : state) :
  f <> Calc_output_bits -> g <> Calc_output_bits ->
  exec c f (exec c g s) = exec c g (exec c f s).
Proof.
  intros Hf Hg.
  assert (Hd : f = g \/ f <> g)
    by (destruct f, g; (left; reflexivity) || (right; discriminate)).
  destruct Hd as [-> | Hne]; [reflexivity|].
  apply envelope_pair_commute; assumption.
Qed.

Lemma envelope_calls_commute_witness :
  exec shipped Calc_CH_8_TO_9 (exec shipped Calc_CH_0_TO_2 (main_init shipped))
  = exec shipped Calc_CH_0_TO_2 (exec shipped Calc_CH_8_TO_9 (main_init shipped)).
Proof.
  apply (envelope_calls_commute shipped Calc_CH_8_TO_9 Calc_CH_0_TO_2);
    discriminate.
Defined.

(** * Initialisation from any state *)

(** X14: [init_all_CH_arrays] overwrites, whatever was there.  On arrays
    of [N_CH] cells it leaves the same resolutions and levels whatever the
    cells held before, so running it twice is running it once; it never
    touches the integrators, the output word or the phase counters. *)
Theorem init_overwrites (c : config) (s : state) :
  length (max s) = N_CH -> length (req s) = N_CH ->
  max (init_all_CH_arrays c s) = max (main_init c) /\
  req (init_all_CH_arrays c s) = req (main_init c) /\
  init_all_CH_arrays c (init_all_CH_arrays c s) = init_all_CH_arrays c s /\
  sum (init_all_CH_arrays c s) = sum s /\
  outBits (init_all_CH_arrays c s) = outBits s /\
  stCnt_0_2 (init_all_CH_arrays c s) = stCnt_0_2 s /\
  stCnt_3_5 (init_all_CH_arrays c s) = stCnt_3_5 s /\
  stCnt_6_7 (init_all_CH_arrays c s) = stCnt_6_7 s /\
  stCnt_8_9 (init_all_CH_arrays c s) = stCnt_8_9 s.
Proof.
  destruct s as [mx rq sm ob p0 p3 p6 p8]. cbn [max req]. intros Hm Hr.
  do 10 (destruct mx as [|? mx]; [discriminate|]).
  destruct mx; [|discriminate].
  do 10 (destruct rq as [|? rq]; [discriminate|]).
  destruct rq; [|discriminate].
  repeat split.
Qed.

Lemma init_overwrites_witness :
  max (init_all_CH_arrays shipped quarter_state) = max (main_init shipped) /\
  req (init_all_CH_arrays shipped quarter_state) = req (main_init shipped).
Proof.
  destruct (init_overwrites shipped quarter_state) as (H1 & H2 & _);
    [reflexivity | reflexivity | split; assumption].
Defined.

(** * The colours stay on the wheel *)

Section Wheel.

Ltac cmp_cases :=
  repeat (match goal with
          | |- context [?a <? ?b] => destruct (Z.ltb_spec a b)
          end; try (exfalso; lia)).

Lemma rgb_env_wheel p :
  0 <= p < 600 ->
  exists a b c,
    rgb_env 200 100 2 p = [a; b; c] /\
    (a = 200 \/ b = 200 \/ c = 200) /\ (a = 0 \/ b = 0 \/ c = 0) /\
    (Z.even a = true /\ Z.even b = true /\ Z.even c = true).
Proof.
  intros Hp. unfold rgb_env.
  cmp_cases; do 3 eexists; (split; [reflexivity|]);
    rewrite ?Z.even_sub, ?Z.even_mul; cbn; auto 10.
Qed.

Lemma rg_env_wheel mx st inc p :
  exists a b,
    rg_env mx st inc p = [a; b] /\ (a = 0 \/ a = mx \/ b = 0 \/ b = mx).
Proof.
  unfold rg_env.
  repeat (match goal with
          | |- context [?a <? ?b] => destruct (a <? b)
          end); do 2 eexists; (split; [reflexivity|]); auto.
Qed.

End Wheel.

(** X12: the colours stay on the wheel.  In every state reached from
    start-up, each three-colour group has one channel at its full level
    200 and one at 0, each two-colour group has a channel at 0 or at its
    full level, and the levels of channels 0 to 5 are even. *)
Theorem levels_on_colour_wheel (fs : list call) :
  let r := req (run shipped fs (main_init shipped)) in
  (rd r 0 = 200 \/ rd r 1 = 200 \/ rd r 2 = 200) /\
  (rd r 0 = 0 \/ rd r 1 = 0 \/ rd r 2 = 0) /\
  (rd r 3 = 200 \/ rd r 4 = 200 \/ rd r 5 = 200) /\
  (rd r 3 = 0 \/ rd r 4 = 0 \/ rd r 5 = 0) /\
  (rd r 6 = 0 \/ rd r 6 = 100 \/ rd r 7 = 0 \/ rd r 7 = 100) /\
  (rd r 8 = 0 \/ rd r 8 = 150 \/ rd r 9 = 0 \/ rd r 9 = 150) /\
  Forall (fun n => Z.even (rd r n) = true) [0; 1; 2; 3; 4; 5]%nat.
Proof.
  intros r. subst r.
  destruct (reachable_sys fs) as [(_ & (H0 & H3 & H6 & H8) & ->) _].
  destruct (rgb_env_wheel _ H0) as (a & b & c & -> & Ha & Ha0 & Ea & Eb & Ec).
  destruct (rgb_env_wheel _ H3) as (d & e & f & -> & Hd & Hd0 & Ed & Ee & Ef).
  destruct (rg_env_wheel 100 50 2 (stCnt_6_7 (run shipped fs (main_init shipped))))
    as (g & h & -> & Hg).
  destruct (rg_env_wheel 150 150 1 (stCnt_8_9 (run shipped fs (main_init shipped))))
    as (i & j & -> & Hi).
  cbn [app rd lookup list_lookup default from_option id].
  repeat split; try assumption.
  repeat constructor; assumption.
Qed.

(** * The whole colour sequence is periodic *)

Section ColourCycle.

Lemma run_env fs s : env_inv s -> env_inv (run shipped fs s).
Proof.
  revert s. induction fs as [|f fs IH]; intros s Hi; [exact Hi|].
  rewrite run_cons. apply IH, exec_env, Hi.
Qed.

(** One round of the four envelope calls steps the four counters. *)
Lemma env_round_frame s :
  let s' := run shipped env_round s in
  sum s' = sum s /\ outBits s' = outBits s /\
  stCnt_0_2 s' = next_stCnt (stCnt_0_2 s) 600 /\
  stCnt_3_5 s' = next_stCnt (stCnt_3_5 s) 600 /\
  stCnt_6_7 s' = next_stCnt (stCnt_6_7 s) 200 /\
  stCnt_8_9 s' = next_stCnt (stCnt_8_9 s) 600.
Proof.
  cbv zeta. unfold run, env_round. cbn [foldl exec].
  set (s1 := calc_CH_0_TO_2 shipped s).
  set (s2 := calc_CH_3_TO_5 shipped s1).
  set (s3 := calc_CH_6_TO_7 shipped s2).
  destruct (calc_CH_0_TO_2_frame s) as (_ & A1 & A2 & A3 & A4 & A5 & A6).
  destruct (calc_CH_3_TO_5_frame s1) as (_ & B1 & B2 & B3 & B4 & B5 & B6).
  destruct (calc_CH_6_TO_7_frame s2) as (_ & C1 & C2 & C3 & C4 & C5 & C6).
  destruct (calc_CH_8_TO_9_frame s3) as (_ & D1 & D2 & D3 & D4 & D5 & D6).
  fold s1 in A1, A2, A3, A4, A5, A6. fold s2 in B1, B2, B3, B4, B5, B6.
  fold s3 in C1, C2, C3, C4, C5, C6.
  repeat split; congruence.
Qed.

Lemma iter_env_round k s :
  env_inv s ->
  let s' := Nat.iter k (run shipped env_round) s in
  env_inv s' /\ sum s' = sum s /\ outBits s' = outBits s /\
  stCnt_0_2 s' = Nat.iter k (fun q => next_stCnt q 600) (stCnt_0_2 s) /\
  stCnt_3_5 s' = Nat.iter k (fun q => next_stCnt q 600) (stCnt_3_5 s) /\
  stCnt_6_7 s' = Nat.iter k (fun q => next_stCnt q 200) (stCnt_6_7 s) /\
  stCnt_8_9 s' = Nat.iter k (fun q => next_stCnt q 600) (stCnt_8_9 s).
Proof.
  intros He. cbv zeta. induction k as [|k IH]; [split; [exact He | repeat split]|].
  rewrite !Nat.iter_succ. destruct IH as (IHe & I1 & I2 & I3 & I4 & I5 & I6).
  destruct (env_round_frame (Nat.iter k (run shipped env_round) s))
    as (F1 & F2 & F3 & F4 & F5 & F6).
  split; [apply run_env; exact IHe|].
  repeat split; congruence.
Qed.

Lemma next_stCnt_multiple len (j : nat) p :
  0 <= p < len -> len < 32768 ->
  Nat.iter (j * Z.to_nat len) (fun q => next_stCnt q len) p = p.
Proof.
  intros Hp Hl. rewrite next_stCnt_iter by assumption.
  rewrite Nat2Z.inj_mul, Z2Nat.id by lia.
  rewrite Z.mod_add by lia. apply Z.mod_small. exact Hp.
Qed.

Lemma env_eq_refl s : env_eq s s.
Proof. repeat split. Qed.

Lemma env_eq_trans s1 s2 s3 : env_eq s1 s2 -> env_eq s2 s3 -> env_eq s1 s3.
Proof.
  intros (A1 & A2 & A3 & A4 & A5 & A6) (B1 & B2 & B3 & B4 & B5 & B6).
  repeat split; congruence.
Qed.

Lemma env_eq_calc_output_bits s : env_eq (calc_output_bits s) s.
Proof.
  destruct (calc_output_bits_frame s) as (H1 & H2 & H3 & H4 & H5 & H6 & _).
  repeat split; assumption.
Qed.

(** What a call does to the envelope part depends on the envelope part only. *)
Lemma env_eq_exec c f s s' : env_eq s s' -> env_eq (exec c f s) (exec c f s').
Proof.
  intros He. destruct f; cbn [exec];
    try (rewrite ?calc_CH_0_TO_2_single, ?calc_CH_3_TO_5_single,
                 ?calc_CH_6_TO_7_single, ?calc_CH_8_TO_9_single;
         rewrite !apply_adj_fields;
         destruct He as (A1 & A2 & A3 & A4 & A5 & A6); unfold env_eq;
         cbn [max req sum outBits stCnt_0_2 stCnt_3_5 stCnt_6_7 stCnt_8_9
              set_req set_stCnt_0_2 set_stCnt_3_5 set_stCnt_6_7 set_stCnt_8_9];
         rewrite A1, A2, A3, A4, A5, A6; repeat split).
  apply (env_eq_trans _ s); [apply env_eq_calc_output_bits|].
  apply (env_eq_trans _ s'); [exact He|].
  destruct (env_eq_calc_output_bits s') as (H1 & H2 & H3 & H4 & H5 & H6).
  repeat split; congruence.
Qed.

Lemma env_eq_run c fs s s' : env_eq s s' -> env_eq (run c fs s) (run c fs s').
Proof.
  revert s s'. induction fs as [|f fs IH]; intros s s' He; [exact He|].
  rewrite !run_cons. apply IH, env_eq_exec, He.
Qed.

End ColourCycle.

Section Ticks.

(** 600 rounds of the four envelope calls restore the state. *)
Lemma env_round_period s :
  env_inv s -> Nat.iter 600 (run shipped env_round) s = s.
Proof.
  intros He. pose proof He as (_ & (H0 & H3 & H6 & H8) & _).
  destruct (iter_env_round 600 s He) as (He' & I1 & I2 & I3 & I4 & I5 & I6).
  cbv zeta in *.
  change 600%nat with (1 * Z.to_nat 600)%nat in I3, I4, I6 at 2.
  change 600%nat with (3 * Z.to_nat 200)%nat in I5 at 2.
  rewrite next_stCnt_multiple in I3, I4, I5, I6 by lia.
  destruct (env_inv_req_eq s _ He He' I3 I4 I5 I6). apply state_eq; assumption.
Qed.

Lemma shipped_speed : 0 <= LOOP_SPEED shipped <= 14.
Proof. cbn. lia. Qed.

(** A pass below the threshold: the counter climbs, the envelope part
    stays. *)
Lemma pass_quiet m :
  0 <= intCnt m < 63 ->
  intCnt (main_loop_body shipped m) = intCnt m + 1 /\
  env_eq (globals (main_loop_body shipped m)) (globals m).
Proof.
  intros Hc. unfold main_loop_body, loop_calls.
  rewrite (envelope_due_spec shipped shipped_speed) by (change (envelope_period shipped) with 64; lia).
  change (envelope_period shipped) with 64.
  destruct (Z.eqb_spec (intCnt m + 1) 64); [lia|].
  cbn [intCnt globals]. rewrite sint16_small by lia. split; [reflexivity|].
  apply env_eq_calc_output_bits.
Qed.

(** The pass at the threshold: the counter restarts, the envelopes make
    one round. *)
Lemma pass_due m :
  intCnt m = 63 ->
  intCnt (main_loop_body shipped m) = 0 /\
  env_eq (globals (main_loop_body shipped m)) (run shipped env_round (globals m)).
Proof.
  intros Hc. unfold main_loop_body, loop_calls.
  rewrite (envelope_due_spec shipped shipped_speed) by (change (envelope_period shipped) with 64; lia).
  change (envelope_period shipped) with 64. rewrite Hc.
  change (63 + 1 =? 64) with true. cbn [intCnt globals]. split; [reflexivity|].
  change [Calc_CH_0_TO_2; Calc_CH_3_TO_5; Calc_CH_6_TO_7; Calc_CH_8_TO_9;
          Calc_output_bits] with (env_round ++ [Calc_output_bits]).
  rewrite run_app. apply env_eq_calc_output_bits.
Qed.

Lemma passes_quiet k m :
  0 <= intCnt m -> intCnt m + Z.of_nat k <= 63 ->
  intCnt (Nat.iter k (main_loop_body shipped) m) = intCnt m + Z.of_nat k /\
  env_eq (globals (Nat.iter k (main_loop_body shipped) m)) (globals m).
Proof.
  intros Hc. induction k as [|k IH]; intros Hk.
  - cbn. split; [lia | apply env_eq_refl].
  - rewrite Nat.iter_succ. destruct IH as [Ic Ie]; [lia|].
    destruct (pass_quiet (Nat.iter k (main_loop_body shipped) m)) as [Pc Pe]; [lia|].
    split; [lia|]. apply (env_eq_trans _ _ _ Pe Ie).
Qed.

(** 64 passes from counter 0: one round of the envelopes, counter 0 again. *)
Lemma passes_block m :
  intCnt m = 0 ->
  intCnt (Nat.iter 64 (main_loop_body shipped) m) = 0 /\
  env_eq (globals (Nat.iter 64 (main_loop_body shipped) m))
         (run shipped env_round (globals m)).
Proof.
  intros Hc. change 64%nat with (S 63). rewrite Nat.iter_succ.
  destruct (passes_quiet 63 m) as [Ic Ie]; [lia | lia |].
  destruct (pass_due (Nat.iter 63 (main_loop_body shipped) m)) as [Pc Pe]; [lia|].
  split; [exact Pc|]. apply (env_eq_trans _ _ _ Pe).
  apply env_eq_run. exact Ie.
Qed.

Lemma passes_blocks j m :
  intCnt m = 0 ->
  intCnt (Nat.iter (j * 64) (main_loop_body shipped) m) = 0 /\
  env_eq (globals (Nat.iter (j * 64) (main_loop_body shipped) m))
         (Nat.iter j (run shipped env_round) (globals m)).
Proof.
  intros Hc. induction j as [|j [Ic Ie]].
  - split; [exact Hc | apply env_eq_refl].
  - replace (S j * 64)%nat with (64 + j * 64)%nat by lia.
    rewrite Nat.iter_add.
    destruct (passes_block (Nat.iter (j * 64) (main_loop_body shipped) m) Ic)
      as [Pc Pe].
    split; [exact Pc|]. apply (env_eq_trans _ _ _ Pe).
    apply env_eq_run. exact Ie.
Qed.

End Ticks.

(** X11: the colour sequence repeats.  From any state on the envelope
    curve, 600 rounds of the four envelope calls restore the whole state;
    and 600 * 64 = 38400 passes of the loop of [main], started with the
    counter at 0, bring back the counter, every level and every phase
    counter (the integrators may differ). *)
Theorem colour_sequence_period (g : state) :
  env_inv g ->
  Nat.iter 600 (run shipped env_round) g = g /\
  let m := Nat.iter (600 * 64) (main_loop_body shipped)
                    {| intCnt := 0; globals := g |} in
  intCnt m = 0 /\ env_eq (globals m) g.
Proof.
  intros He. split; [apply env_round_period; exact He|]. cbv zeta.
  destruct (passes_blocks 600 {| intCnt := 0; globals := g |}) as [Ic Ie];
    [reflexivity|].
  split; [exact Ic|]. cbn [globals] in Ie.
  rewrite env_round_period in Ie by exact He. exact Ie.
Qed.

Lemma colour_sequence_period_witness :
  Nat.iter 600 (run shipped env_round) (main_init shipped) = main_init shipped.
Proof.
  apply (colour_sequence_period (main_init shipped)).
  repeat split; vm_compute; reflexivity || discriminate.
Defined.

(** * The counter of main is never initialised *)

Section AnyCounter.

Lemma sint16_mod128 z : sint16 z mod 128 = z mod 128.
Proof.
  unfold sint16. rewrite (Z.mod_eq (z + 32768) 65536) by lia.
  replace (z + 32768 - 65536 * ((z + 32768) / 65536) - 32768)
    with (z + (- 512 * ((z + 32768) / 65536)) * 128) by lia.
  apply Z.mod_add. lia.
Qed.

Lemma sint16_add_mod128 a i : (sint16 a + i) mod 128 = (a + i) mod 128.
Proof.
  rewrite Zplus_mod, sint16_mod128, <- Zplus_mod. reflexivity.
Qed.

Lemma land_64 y : Z.land y 64 = if Z.testbit y 6 then 64 else 0.
Proof.
  apply Z.bits_inj'. intros n Hn. rewrite Z.land_spec.
  change 64 with (2 ^ 6) at 1. rewrite Z.pow2_bits_eqb by lia.
  destruct (Z.eqb_spec 6 n) as [<- | Hne].
  - destruct (Z.testbit y 6); reflexivity.
  - rewrite andb_false_r. destruct (Z.testbit y 6).
    + change 64 with (2 ^ 6). rewrite Z.pow2_bits_eqb by lia.
      symmetry. apply Z.eqb_neq. exact Hne.
    + rewrite Z.bits_0. reflexivity.
Qed.

(** The test looks at bit 6 of the incremented counter only. *)
Lemma envelope_due_mod128 y : envelope_due shipped y = (64 <=? y mod 128).
Proof.
  unfold envelope_due. change (Z.shiftl 1 (LOOP_SPEED shipped)) with 64.
  rewrite land_64.
  pose proof (Z.testbit_spec' y 6 ltac:(lia)) as Hb. change (2 ^ 6) with 64 in Hb.
  destruct (Z.testbit y 6); cbn [Z.b2z] in Hb; cbn [Z.eqb negb];
    symmetry; [apply Z.leb_le | apply Z.leb_gt];
    Z.to_euclidean_division_equations; lia.
Qed.

Lemma intCnt_after_app c j k cnt :
  intCnt_after c (j + k) cnt = intCnt_after c k (intCnt_after c j cnt).
Proof.
  revert cnt. induction j as [|j IH]; intros cnt; [reflexivity|].
  cbn [Nat.add intCnt_after]. apply IH.
Qed.

(** While bit 6 stays clear the passes run no envelope and the counter
    climbs by one per pass (modulo 128, whatever the 16-bit wrap). *)
Lemma envelope_trace_quiet_any k cnt :
  (forall i, 1 <= i <= Z.of_nat k -> (cnt + i) mod 128 < 64) ->
  envelope_trace shipped k cnt = replicate k false /\
  intCnt_after shipped k cnt mod 128 = (cnt + Z.of_nat k) mod 128.
Proof.
  revert cnt. induction k as [|k IH]; intros cnt Hq.
  - cbn. rewrite Z.add_0_r. split; reflexivity.
  - cbn [envelope_trace intCnt_after replicate]. unfold loop_calls.
    rewrite envelope_due_mod128, sint16_mod128.
    destruct (Z.leb_spec 64 ((cnt + 1) mod 128)) as [Hge | Hlt].
    { specialize (Hq 1 ltac:(lia)). lia. }
    cbn [fst]. destruct (IH (sint16 (cnt + 1))) as [-> ->].
    + intros i Hi. rewrite sint16_add_mod128.
      replace (cnt + 1 + i) with (cnt + (i + 1)) by lia. apply Hq. lia.
    + split; [reflexivity|]. rewrite sint16_add_mod128. f_equal. lia.
Qed.

(** Once bit 6 of the incremented counter is set, the envelopes run and
    the counter restarts. *)
Lemma envelope_fires cnt :
  64 <= (cnt + 1) mod 128 ->
  envelope_trace shipped 1 cnt = [true] /\ intCnt_after shipped 1 cnt = 0.
Proof.
  intros Hge. cbn [envelope_trace intCnt_after]. unfold loop_calls.
  rewrite envelope_due_mod128, sint16_mod128.
  destruct (Z.leb_spec 64 ((cnt + 1) mod 128)); [|lia]. split; reflexivity.
Qed.

End AnyCounter.

(** X13: the counter needs no initial value.  [main] never initialises
    [intCnt]; whatever it holds, the envelopes run for the first time
    within the first 65 passes, the counter is then 0, and from that pass
    on every 64 consecutive passes contain exactly one envelope run. *)
Theorem envelope_cadence_from_any_counter (cnt : Z) :
  exists j : nat,
    (j <= 64)%nat /\
    envelope_trace shipped (S j) cnt = replicate j false ++ [true] /\
    intCnt_after shipped (S j) cnt = 0 /\
    forall i : nat,
      count_bits true
        (drop (S j + i) (envelope_trace shipped (S j + i + 64) cnt)) = 1.
Proof.
  set (w := (cnt + 1) mod 128).
  assert (Hw : 0 <= w < 128) by (apply Z.mod_pos_bound; lia).
  set (j := if 64 <=? w then 0%nat else Z.to_nat (64 - w)).
  assert (Hj : (j <= 64)%nat /\ (w + Z.of_nat j) mod 128 >= 64 /\
               forall i, 1 <= i <= Z.of_nat j -> w + (i - 1) < 64).
  { subst j. destruct (Z.leb_spec 64 w).
    - rewrite Z.add_0_r, Z.mod_small by lia. repeat split; try lia.
    - rewrite Z2Nat.id by lia. replace (w + (64 - w)) with 64 by lia.
      change (64 mod 128) with 64. repeat split; lia. }
  destruct Hj as (Hj64 & Hfire & Hquiet).
  destruct (envelope_trace_quiet_any j cnt) as [Ht Hc].
  { intros i Hi. replace (cnt + i) with (cnt + 1 + (i - 1)) by lia.
    rewrite <- Zplus_mod_idemp_l. fold w.
    rewrite Z.mod_small by (specialize (Hquiet i Hi); lia). apply Hquiet, Hi. }
  destruct (envelope_fires (intCnt_after shipped j cnt)) as [Hf Hz].
  { rewrite <- Zplus_mod_idemp_l, Hc, Zplus_mod_idemp_l.
    replace (cnt + Z.of_nat j + 1) with (cnt + 1 + Z.of_nat j) by lia.
    rewrite <- Zplus_mod_idemp_l. fold w. lia. }
  assert (Hs : envelope_trace shipped (S j) cnt = replicate j false ++ [true]).
  { replace (S j) with (j + 1)%nat by lia.
    rewrite envelope_trace_app, Ht, Hf. reflexivity. }
  assert (Hz' : intCnt_after shipped (S j) cnt = 0).
  { replace (S j) with (j + 1)%nat by lia. rewrite intCnt_after_app. exact Hz. }
  exists j. split; [exact Hj64|]. split; [exact Hs|]. split; [exact Hz'|].
  intros i.
  replace (S j + i + 64)%nat with (S j + (i + 64))%nat by lia.
  rewrite envelope_trace_app, Hz'.
  rewrite <- (envelope_trace_length shipped (S j) cnt) at 1.
  rewrite drop_app_add', envelope_trace_app by reflexivity.
  rewrite <- (envelope_trace_length shipped i 0) at 1. rewrite drop_app_length.
  apply (envelope_trace_period shipped).
  - cbn. lia.
  - apply intCnt_after_range; [cbn; lia|]. change (envelope_period shipped) with 64. lia.
Qed.

(** * Layout of the output word *)

(** X15: the output word after a step.  It fits 16 bits; for [n < 10] its
    bit [n] is the bit of channel [n]'s modulator step; and its bits 10 to
    15 are bits 0 to 5 of the word before the call (the previous bits of
    channels 0 to 5: the word is shifted, never cleared). *)
Theorem outBits_layout (s : state) (n : nat) (j : Z) :
  length (sum s) = N_CH -> (n < N_CH)%nat -> 0 <= j < 6 ->
  0 <= outBits (calc_output_bits s) < 65536 /\
  Z.testbit (outBits (calc_output_bits s)) (Z.of_nat n)
    = snd (modulate (rd (max s) n) (rd (req s) n) (rd (sum s) n)) /\
  Z.testbit (outBits (calc_output_bits s)) (10 + j) = Z.testbit (outBits s) j.
Proof.
  intros Hlen Hn Hj. split; [|split].
  - unfold calc_output_bits. change N_CH with (S 9). cbn [loop_from].
    generalize (loop_body 9 s). intros s9.
    generalize (loop_body 8 s9). intros s8.
    generalize (loop_body 7 s8). intros s7.
    generalize (loop_body 6 s7). intros s6.
    generalize (loop_body 5 s6). intros s5.
    generalize (loop_body 4 s5). intros s4.
    generalize (loop_body 3 s4). intros s3.
    generalize (loop_body 2 s3). intros s2.
    generalize (loop_body 1 s2). intros s1.
    rewrite loop_body_outBits.
    pose proof (Z.mod_pos_bound (outBits s1) 32768 ltac:(lia)).
    destruct (snd (modulate (rd (max s1) 0) (rd (req s1) 0) (rd (sum s1) 0)));
      cbn [Z.b2z]; lia.
  - destruct (calc_output_bits_channel s n Hlen Hn) as [_ Hb]. exact Hb.
  - rewrite calc_output_bits_calc_in.
    pose proof (calc_in_shift (reverse (seq 0 N_CH)) s j) as Hs.
    rewrite length_reverse, length_seq in Hs. apply Hs; unfold N_CH; lia.
Qed.

Lemma outBits_layout_witness :
  0 <= outBits (calc_output_bits quarter_state) < 65536 /\
  Z.testbit (outBits (calc_output_bits quarter_state)) (Z.of_nat 4)
    = snd (modulate (rd (max quarter_state) 4) (rd (req quarter_state) 4)
                    (rd (sum quarter_state) 4)) /\
  Z.testbit (outBits (calc_output_bits quarter_state)) (10 + 2)
    = Z.testbit (outBits quarter_state) 2.
Proof.
  apply (outBits_layout quarter_state 4 2);
    [reflexivity | unfold N_CH; lia | lia].
Defined.

(** * Where the colours are after k envelope runs *)

(** X16: the trajectory of the levels.  After [k] rounds of the four
    envelope calls from start-up, the counters are [k], [300 + k],
    [k] and [300 + k] modulo their cycles 600, 600, 200 and 600, and the
    ten levels are the piecewise linear ramps [rgb_env] and [rg_env] at
    those phases. *)
Theorem envelope_trajectory (k : nat) :
  let s := Nat.iter k (run shipped env_round) (main_init shipped) in
  let p0 := Z.of_nat k mod 600 in
  let p3 := (300 + Z.of_nat k) mod 600 in
  let p6 := Z.of_nat k mod 200 in
  let p8 := (300 + Z.of_nat k) mod 600 in
  stCnt_0_2 s = p0 /\ stCnt_3_5 s = p3 /\ stCnt_6_7 s = p6 /\ stCnt_8_9 s = p8 /\
  req s = rgb_env 200 100 2 p0 ++ rgb_env 200 100 2 p3
          ++ rg_env 100 50 2 p6 ++ rg_env 150 150 1 p8.
Proof.
  cbv zeta.
  destruct main_init_sys as [He _].
  destruct (iter_env_round k (main_init shipped) He)
    as ((_ & _ & Hreq) & _ & _ & I0 & I3 & I6 & I8).
  cbv zeta in *.
  rewrite next_stCnt_iter in I0, I3, I6, I8 by (vm_compute; split; reflexivity || discriminate) || lia.
  change (stCnt_0_2 (main_init shipped)) with 0 in I0.
  change (stCnt_3_5 (main_init shipped)) with 300 in I3.
  change (stCnt_6_7 (main_init shipped)) with 0 in I6.
  change (stCnt_8_9 (main_init shipped)) with 300 in I8.
  rewrite Z.add_0_l in I0, I6.
  rewrite Hreq, I0, I3, I6, I8. repeat split.
Qed.
